(** * Cash-flow ledger of [smart.py]: recompute pass, sidebar operations, report

    The script keeps one pandas data frame [df] with the columns
    S.No, Date, Description, Account, Amount and Balance.  Every mutating
    branch (add, delete, modify) and the loader end with the same three lines

      df = df.sort_values(["Account", "Date"]).reset_index(drop=True)
      df["S.No"]    = df.index + 1
      df["Balance"] = df.groupby("Account")["Amount"].cumsum()

    which are embedded here once, as [recompute].  A frame is the list of its
    rows in index order.

    Conventions of the embedding
    - Amount and Balance are numeric cells of one dtype per column.  The
      definitions are written over an interface [AmountOps] that holds the
      operations of the dtype; [float64] is the dtype of every column the
      forms have written to, [int64] the one of a file of whole numbers.
    - Date cells are datetime64 timestamps: [Some t] with [t] in nanoseconds
      since the epoch, or [None] for NaT (what [errors="coerce"] leaves for a
      cell that does not parse).  Python [date] objects are day ordinals.
    - [sort_values] over two columns is pandas' lexicographic sort, which keeps
      the input order of rows with equal keys and puts missing values last.
    - strings are UTF-8 text, compared byte by byte (which is the order of
      the code points). *)

From Stdlib Require Import ZArith List String Ascii Bool Lia.
From Stdlib Require Import Sorted Permutation.
From Stdlib Require Import PrimFloat Uint63 SpecFloat FloatOps FloatAxioms.
Import ListNotations.

Local Open Scope Z_scope.
Local Open Scope list_scope.

(** ** Amounts *)

(** What the script asks of the Amount column: the literal 0, [+], unary
    minus, [abs], [<] (both [x > 0] and [x < 0]), and the two library
    reductions it calls: one step of the grouped cumulative sum and
    [Series.sum()].  Both depend on the dtype of the column.

    [cumsum_step (accum, compensation) val] is one iteration of the loop of
    pandas' grouped cumulative sum for the group of the row: it returns
    the value written to the output and the new state of the group. *)
Class AmountOps (A : Type) : Type := {
  azero : A;
  aadd : A -> A -> A;
  aneg : A -> A;
  aabs : A -> A;
  altb : A -> A -> bool;
  altb_zero : altb azero azero = false;
  cumsum_step : A * A -> A -> A * (A * A);
  asum : list A -> A;
  asum_nil : asum [] = azero
}.

(** *** float64 *)

(** Grouped cumulative sum of a float column: Kahan summation.

      y = val - compensation
      t = accum + y
      compensation = t - accum - y      (reset to 0 when that is NaN)
      accum = t ; out = t

    A missing value is written through and leaves the group as it was. *)
Definition kahan_step (st : float * float) (val : float) : float * (float * float) :=
  let '(accum, compensation) := st in
  if PrimFloat.is_nan val then (PrimFloat.nan, (accum, compensation))
  else
    let y := PrimFloat.sub val compensation in
    let t := PrimFloat.add accum y in
    let c := PrimFloat.sub (PrimFloat.sub t accum) y in
    (t, (t, if PrimFloat.is_nan c then PrimFloat.zero else c)).

(** [Series.sum()] of a float column is numpy's add-reduction, which sums
    pairwise: fewer than 8 elements in a plain loop; up to 128 elements with
    eight accumulators over the blocks of 8, combined as a tree, the
    remaining ones added one by one; longer arrays are split in two halves,
    the first of a length that is a multiple of 8. *)
Fixpoint unroll8 (r0 r1 r2 r3 r4 r5 r6 r7 : float) (l : list float) : float :=
  match l with
  | a0 :: a1 :: a2 :: a3 :: a4 :: a5 :: a6 :: a7 :: rest =>
      unroll8 (PrimFloat.add r0 a0) (PrimFloat.add r1 a1) (PrimFloat.add r2 a2)
              (PrimFloat.add r3 a3) (PrimFloat.add r4 a4) (PrimFloat.add r5 a5)
              (PrimFloat.add r6 a6) (PrimFloat.add r7 a7) rest
  | _ =>
      fold_left PrimFloat.add l
        (PrimFloat.add
           (PrimFloat.add (PrimFloat.add r0 r1) (PrimFloat.add r2 r3))
           (PrimFloat.add (PrimFloat.add r4 r5) (PrimFloat.add r6 r7)))
  end.

Definition pairwise_block (l : list float) : float :=
  match l with
  | a0 :: a1 :: a2 :: a3 :: a4 :: a5 :: a6 :: a7 :: rest =>
      unroll8 a0 a1 a2 a3 a4 a5 a6 a7 rest
  | _ => fold_left PrimFloat.add l PrimFloat.neg_zero
  end.

Fixpoint pairwise_sum (depth : nat) (l : list float) : float :=
  let n := List.length l in
  if (n <=? 128)%nat then pairwise_block l
  else
    match depth with
    | O => pairwise_block l
    | S depth' =>
        let n2 := (n / 2 - (n / 2) mod 8)%nat in
        PrimFloat.add (pairwise_sum depth' (firstn n2 l))
                      (pairwise_sum depth' (skipn n2 l))
    end.

(** The reduction starts from -0.0 (which keeps the sign of a sum of negative
    zeros); the sum of no element is 0.0. *)
Definition float_sum (l : list float) : float :=
  match l with
  | [] => PrimFloat.zero
  | _ :: _ => PrimFloat.add PrimFloat.neg_zero (pairwise_sum (List.length l) l)
  end.

(** IEEE-754 binary64: the dtype of the Amount column as soon as one cell
    of the file has a fraction, is empty or is not a number, and after any
    entry through the forms. *)
#[export] Instance float64 : AmountOps float := {|
  azero := PrimFloat.zero;
  aadd := PrimFloat.add;
  aneg := PrimFloat.opp;
  aabs := PrimFloat.abs;
  altb := PrimFloat.ltb;
  altb_zero := eq_refl;
  cumsum_step := kahan_step;
  asum := float_sum;
  asum_nil := eq_refl
|}.

(** *** int64 *)

(** Two's complement on 64 bits. *)
Definition wrap64 (z : Z) : Z := (z + 2 ^ 63) mod 2 ^ 64 - 2 ^ 63.

Definition int64_add (x y : Z) : Z := wrap64 (x + y).

(** For an integer column the grouped cumulative sum is [t = val + accum],
    and [sum] adds in sequence; both wrap around. *)
Definition int64_step (st : Z * Z) (val : Z) : Z * (Z * Z) :=
  let '(accum, compensation) := st in
  let t := int64_add val accum in
  (t, (t, compensation)).

(** The dtype [read_csv] gives the Amount column of a file whose cells are
    all integer literals. *)
#[export] Instance int64 : AmountOps Z := {|
  azero := 0;
  aadd := int64_add;
  aneg := fun x => wrap64 (- x);
  aabs := fun x => wrap64 (Z.abs x);
  altb := Z.ltb;
  altb_zero := eq_refl;
  cumsum_step := int64_step;
  asum := fun l => fold_left int64_add l 0;
  asum_nil := eq_refl
|}.

(** ** Rows and frames *)

Record row (A : Type) : Type := mkRow {
  SNo : Z;
  Date : option Z;
  Description : string;
  Account : string;
  Amount : A;
  Balance : A
}.
Arguments mkRow {A}.
Arguments SNo {A}.
Arguments Date {A}.
Arguments Description {A}.
Arguments Account {A}.
Arguments Amount {A}.
Arguments Balance {A}.

Definition frame (A : Type) : Type := list (row A).

(** The four columns a user enters; S.No and Balance are derived. *)
Definition payload {A} (r : row A) : option Z * string * string * A :=
  (Date r, Description r, Account r, Amount r).

Definition set_SNo {A} (n : Z) (r : row A) : row A :=
  mkRow n (Date r) (Description r) (Account r) (Amount r) (Balance r).

Definition set_Balance {A} (b : A) (r : row A) : row A :=
  mkRow (SNo r) (Date r) (Description r) (Account r) (Amount r) b.

(** ** Dates *)

Definition ns_per_day : Z := 86400 * 1000000000.

(** [pd.to_datetime(d)] for a Python [date]: midnight of that day. *)
Definition pd_to_datetime (d : Z) : option Z := Some (d * ns_per_day).

(** [Series.dt.date]: the calendar day of a timestamp, NaT stays NaT. *)
Definition dt_date (t : option Z) : option Z :=
  match t with
  | Some ns => Some (ns / ns_per_day)
  | None => None
  end.

(** ** sort_values(["Account", "Date"]) *)

(** Order of the Date column, NaT last. *)
Definition date_leb (d1 d2 : option Z) : bool :=
  match d1, d2 with
  | Some x, Some y => x <=? y
  | Some _, None => true
  | None, Some _ => false
  | None, None => true
  end.

(** Lexicographic order on (Account, Date). *)
Definition key_leb {A} (r1 r2 : row A) : bool :=
  match String.compare (Account r1) (Account r2) with
  | Lt => true
  | Gt => false
  | Eq => date_leb (Date r1) (Date r2)
  end.

(** A row goes in front of the first row it does not exceed, so it stays in
    front of the rows with an equal key that came after it. *)
Fixpoint sort_insert {A} (r : row A) (df : frame A) : frame A :=
  match df with
  | [] => [r]
  | r' :: rest => if key_leb r r' then r :: r' :: rest else r' :: sort_insert r rest
  end.

Fixpoint sort_values {A} (df : frame A) : frame A :=
  match df with
  | [] => []
  | r :: rest => sort_insert r (sort_values rest)
  end.

(** ** reset_index(drop=True); df["S.No"] = df.index + 1 *)

Fixpoint assign_SNo {A} (index : Z) (df : frame A) : frame A :=
  match df with
  | [] => []
  | r :: rest => set_SNo (index + 1) r :: assign_SNo (index + 1) rest
  end.

(** ** df.groupby("Account")["Amount"].cumsum() *)

(** One accumulator and one compensation per group, all starting at 0. *)
Definition accum_init {A} `{AmountOps A} : string -> A * A := fun _ => (azero, azero).

Definition accum_set {S} (accum : string -> S) (lab : string) (v : S) : string -> S :=
  fun k => if String.eqb k lab then v else accum k.

(** Rows are visited in index order; each gets the running total of its own
    group, and the result is aligned with the rows. *)
Fixpoint group_cumsum {A} `{AmountOps A} (accum : string -> A * A) (df : frame A) : list A :=
  match df with
  | [] => []
  | r :: rest =>
      let step := cumsum_step (accum (Account r)) (Amount r) in
      fst step :: group_cumsum (accum_set accum (Account r) (snd step)) rest
  end.

(** [Series.cumsum()] of one series: the same loop with a single group. *)
Fixpoint running {A} `{AmountOps A} (st : A * A) (l : list A) : list A :=
  match l with
  | [] => []
  | x :: rest =>
      let step := cumsum_step st x in
      fst step :: running (snd step) rest
  end.

Definition cumsum {A} `{AmountOps A} (l : list A) : list A := running (azero, azero) l.

(** Column assignment [df["Balance"] = values]. *)
Fixpoint assign_Balance {A} (df : frame A) (values : list A) : frame A :=
  match df, values with
  | r :: rest, v :: vs => set_Balance v r :: assign_Balance rest vs
  | _, _ => []
  end.

(** ** The recompute pass (lines 49-51, 78-80, 92-94, 116-118) *)

Definition recompute {A} `{AmountOps A} (df : frame A) : frame A :=
  let df1 := sort_values df in
  let df2 := assign_SNo 0 df1 in
  assign_Balance df2 (group_cumsum accum_init df2).

(** Line 80 alone, started from given accumulators: the frame with its
    Balance column filled. *)
Definition with_cumsum {A} `{AmountOps A} (accum : string -> A * A) (df : frame A) : frame A :=
  assign_Balance df (group_cumsum accum df).

(** ** Loading (lines 39-53) *)

(** A record of cash_flow.csv as [read_csv] hands it over: the Date cell
    parsed or not, the Amount cell numeric or not.  [A] is the dtype the
    Amount column is read with: [csv_row float] are the records of a file
    read as float64, [csv_row Z] those of a file read as int64 (see
    [int_file]).  The Description and Account cells are text: a file in
    which such a cell is empty, or holds one of the words [read_csv] takes
    for a missing value, is not described. *)
Record csv_row (A : Type) : Type := mkCsv {
  csv_SNo : Z;
  csv_Date : option Z;
  csv_Description : string;
  csv_Account : string;
  csv_Amount : option A
}.
Arguments mkCsv {A}.
Arguments csv_SNo {A}.
Arguments csv_Date {A}.
Arguments csv_Description {A}.
Arguments csv_Account {A}.
Arguments csv_Amount {A}.

(** Lines 46-47: [to_datetime(errors="coerce")] keeps NaT, and
    [to_numeric(errors="coerce").fillna(0.0)] turns a bad Amount into 0.
    The Balance cell is a placeholder: line 51 overwrites it before any read. *)
Definition coerce {A} `{AmountOps A} (c : csv_row A) : row A :=
  mkRow (csv_SNo c) (csv_Date c) (csv_Description c) (csv_Account c)
        (match csv_Amount c with Some a => a | None => azero end) azero.

(** [file] is [None] when cash_flow.csv does not exist. *)
Definition load {A} `{AmountOps A} (file : option (list (csv_row A))) : frame A :=
  let df := match file with
            | Some records => map coerce records
            | None => []
            end in
  match df with
  | [] => df
  | _ :: _ => recompute df
  end.

(** ** Sidebar messages *)

Inductive notice : Type :=
| DescriptionRequired            (* error("Description required.") *)
| TransactionAdded               (* success("Transaction added.") *)
| Deleted (to_delete : list Z)   (* success(f"Deleted S.No {to_delete}") *)
| NoRowsSelected                 (* warning("No rows selected for deletion.") *)
| Updated (mod_sno : Z).         (* success(f"Updated S.No {mod_sno}") *)

(** ** str.strip() *)

Definition utf8 (bytes : list N) : string :=
  fold_right (fun n s => String (ascii_of_N n) s) EmptyString bytes.

(** The characters [str.strip()] removes, those for which [str.isspace]
    holds, in their UTF-8 encoding: U+0009..U+000D, U+001C..U+001F and the
    space; U+0085 and the no-break space U+00A0; U+1680, U+2000..U+200A,
    U+2028, U+2029, U+202F, U+205F and U+3000. *)
Definition whitespace1 : list string :=
  map utf8 [[9]; [10]; [11]; [12]; [13]; [28]; [29]; [30]; [31]; [32]]%N.

Definition whitespace2 : list string :=
  map utf8 [[194; 133]; [194; 160]]%N.

Definition whitespace3 : list string :=
  map utf8 [[225; 154; 128];
            [226; 128; 128]; [226; 128; 129]; [226; 128; 130]; [226; 128; 131];
            [226; 128; 132]; [226; 128; 133]; [226; 128; 134]; [226; 128; 135];
            [226; 128; 136]; [226; 128; 137]; [226; 128; 138];
            [226; 128; 168]; [226; 128; 169]; [226; 128; 175];
            [226; 129; 159]; [227; 128; 128]]%N.

Definition whitespace : list string := whitespace1 ++ whitespace2 ++ whitespace3.

Definition among (l : list string) (w : string) : bool := existsb (String.eqb w) l.

Definition isspace (c : ascii) : bool := among whitespace1 (String c EmptyString).

Definition isspace2 (c1 c2 : ascii) : bool :=
  among whitespace2 (String c1 (String c2 EmptyString)).

Definition isspace3 (c1 c2 c3 : ascii) : bool :=
  among whitespace3 (String c1 (String c2 (String c3 EmptyString))).

(** Leading whitespace characters are dropped one after the other. *)
Fixpoint lstrip (s : string) : string :=
  match s with
  | EmptyString => EmptyString
  | String c1 s1 =>
      if isspace c1 then lstrip s1
      else
        match s1 with
        | EmptyString => s
        | String c2 s2 =>
            if isspace2 c1 c2 then lstrip s2
            else
              match s2 with
              | EmptyString => s
              | String c3 s3 => if isspace3 c1 c2 c3 then lstrip s3 else s
              end
        end
  end.

(** The string is cut where nothing but whitespace follows. *)
Fixpoint rstrip (s : string) : string :=
  match s with
  | EmptyString => EmptyString
  | String c s' =>
      match lstrip s with
      | EmptyString => EmptyString
      | String _ _ => String c (rstrip s')
      end
  end.

Definition strip (s : string) : string := rstrip (lstrip s).

(** A string of whitespace characters only. *)
Inductive blank : string -> Prop :=
| blank_nil : blank EmptyString
| blank_cons (w s : string) : In w whitespace -> blank s -> blank (w ++ s).

(** Truth value of a string: [not s] holds for the empty string only. *)
Definition falsy (s : string) : bool :=
  match s with
  | EmptyString => true
  | String _ _ => false
  end.

(** ** Add Transaction (lines 57-82) *)

Inductive ttype : Type := Credit | Debit.

(** [amt if ttype == "Credit" else -amt] *)
Definition signed {A} `{AmountOps A} (t : ttype) (amt : A) : A :=
  match t with
  | Credit => amt
  | Debit => aneg amt
  end.

(** The new row has no Balance cell after [concat]; line 80 fills the whole
    column before it is read, so a placeholder stands for the missing cell. *)
Definition new_row {A} `{AmountOps A}
    (df : frame A) (d : Z) (desc acct : string) (t : ttype) (amt : A) : row A :=
  mkRow (Z.of_nat (List.length df) + 1) (pd_to_datetime d) desc acct (signed t amt) azero.

Definition do_add {A} `{AmountOps A}
    (d : Z) (desc acct : string) (t : ttype) (amt : A) (df : frame A)
  : frame A * notice :=
  if falsy (strip desc) then (df, DescriptionRequired)
  else (recompute (df ++ [new_row df d desc acct t amt]), TransactionAdded).

(** ** Delete Selected (lines 88-98) *)

(** [Series.isin(values)] *)
Definition isin {K} (eqb : K -> K -> bool) (x : K) (values : list K) : bool :=
  existsb (eqb x) values.

(** Boolean indexing [df[m]] / [df.loc[m]]: the rows whose flag is set. *)
Fixpoint loc {R} (m : list bool) (df : list R) : list R :=
  match m, df with
  | b :: m', r :: rest => if b then r :: loc m' rest else loc m' rest
  | _, _ => []
  end.

(** Membership of a row's serial in a selection, decided from [In] on the
    list of selected serials. *)
Definition chosen {A} (to_delete : list Z) (r : row A) : bool :=
  if in_dec Z.eq_dec (SNo r) to_delete then true else false.

Definition delete_selected {A} `{AmountOps A} (to_delete : list Z) (df : frame A)
  : frame A * notice :=
  match to_delete with
  | [] => (df, NoRowsSelected)
  | _ :: _ =>
      let keep := map (fun r => negb (isin Z.eqb (SNo r) to_delete)) df in
      (recompute (loc keep df), Deleted to_delete)
  end.

(** ** Modify (lines 101-120) *)

(** [df.loc[df["S.No"] == mod_sno, [...]] = [...]]: every matching row gets
    the four new cells; S.No and Balance stay until the recompute.  The new
    amount is a float: the assignment is the one pandas performs on a float64
    column (on the int64 column of a file of whole numbers it refuses an
    amount with a fraction). *)
Definition assign_where {A} (mod_sno : Z) (date : option Z) (desc acct : string)
    (amount : A) (df : frame A) : frame A :=
  map (fun r => if SNo r =? mod_sno
                then mkRow (SNo r) date desc acct amount (Balance r)
                else r) df.

Definition do_mod {A} `{AmountOps A}
    (mod_sno : Z) (new_date : Z) (new_desc new_acct : string)
    (new_type : ttype) (new_amt : A) (df : frame A)
  : frame A * notice :=
  let signed_amt := signed new_type new_amt in
  (recompute (assign_where mod_sno (pd_to_datetime new_date) new_desc new_acct signed_amt df),
   Updated mod_sno).

(** The select box offers [[None] + df["S.No"].tolist()], and [if mod_sno:]
    lets a chosen, non-zero serial through. *)
Definition selectable {A} (mod_sno : Z) (df : frame A) : Prop :=
  In mod_sno (map SNo df) /\ mod_sno <> 0.

(** ** Report (lines 145-155, 174-176) *)

(** [df["Date"].dt.date >= start_pie]: a comparison with NaT is False. *)
Definition date_ge (d : option Z) (start_pie : Z) : bool :=
  match d with
  | Some x => start_pie <=? x
  | None => false
  end.

Definition date_le (d : option Z) (end_pie : Z) : bool :=
  match d with
  | Some x => x <=? end_pie
  | None => false
  end.

Definition mask {A} (start_pie end_pie : Z) (sel_accts : list string) (df : frame A)
  : list bool :=
  map (fun r => date_ge (dt_date (Date r)) start_pie
                && date_le (dt_date (Date r)) end_pie
                && isin String.eqb (Account r) sel_accts) df.

Definition df_pie {A} (start_pie end_pie : Z) (sel_accts : list string) (df : frame A)
  : frame A :=
  loc (mask start_pie end_pie sel_accts df) df.

(** [rows.loc[rows["Amount"] > 0, "Amount"].sum()] *)
Definition total_credit {A} `{AmountOps A} (rows : frame A) : A :=
  asum (map Amount (loc (map (fun r => altb azero (Amount r)) rows) rows)).

(** [rows.loc[rows["Amount"] < 0, "Amount"].abs().sum()] *)
Definition total_debit {A} `{AmountOps A} (rows : frame A) : A :=
  asum (map aabs (map Amount (loc (map (fun r => altb (Amount r) azero) rows) rows))).

(** One entry per group, kept in key order; a later value of the same group
    replaces the earlier one. *)
Fixpoint last_put {A} (k : string) (v : A) (s : list (string * A)) : list (string * A) :=
  match s with
  | [] => [(k, v)]
  | (k', v') :: rest =>
      match String.compare k k' with
      | Lt => (k, v) :: (k', v') :: rest
      | Eq => (k, v) :: rest
      | Gt => (k', v') :: last_put k v rest
      end
  end.

(** [rows.groupby("Account")["Balance"].last()]: a series indexed by the
    accounts present, in sorted order. *)
Definition bal_series {A} (rows : frame A) : list (string * A) :=
  fold_left (fun s r => last_put (Account r) (Balance r) s) rows [].

(** [bal_series.sum() if not bal_series.empty else 0.0] *)
Definition total_balance {A} `{AmountOps A} (rows : frame A) : A :=
  match bal_series rows with
  | [] => azero
  | s => asum (map snd s)
  end.

Record totals (A : Type) : Type := mkTotals {
  totalCredit : A;
  totalDebit : A;
  totalBalance : A
}.
Arguments mkTotals {A}.
Arguments totalCredit {A}.
Arguments totalDebit {A}.
Arguments totalBalance {A}.

(** The three values of the pie chart. *)
Definition aggregate {A} `{AmountOps A} (rows : frame A) : totals A :=
  mkTotals (total_credit rows) (total_debit rows) (total_balance rows).

(** A row of the exported sheet: the ledger row and the two split columns. *)
Record exp_row (A : Type) : Type := mkExp {
  exp_base : row A;
  exp_Credit : A;
  exp_Debit : A
}.
Arguments mkExp {A}.
Arguments exp_base {A}.
Arguments exp_Credit {A}.
Arguments exp_Debit {A}.

(** [lambda x: x if x > 0 else 0] and [lambda x: -x if x < 0 else 0] *)
Definition credit_of {A} `{AmountOps A} (x : A) : A := if altb azero x then x else azero.
Definition debit_of {A} `{AmountOps A} (x : A) : A := if altb x azero then aneg x else azero.

Definition df_exp {A} `{AmountOps A} (rows : frame A) : list (exp_row A) :=
  map (fun r => mkExp r (credit_of (Amount r)) (debit_of (Amount r))) rows.

(** ** Ledger states and the properties stated about them *)

(** The frames the script can hold: what the loader produces, and what any
    sequence of sidebar actions makes of it.  The Manage Transactions section
    is rendered for a non-empty frame only (line 86), and the modify form
    opens for a serial picked from the select box (lines 101-102).  A form
    that fails to render takes transitions away and adds none, so every frame
    of a run is among these. *)
Inductive reachable {A} `{AmountOps A} : frame A -> Prop :=
| reach_load (file : option (list (csv_row A))) :
    reachable (load file)
| reach_add d desc acct t amt df :
    reachable df ->
    reachable (fst (do_add d desc acct t amt df))
| reach_delete to_delete df :
    reachable df -> df <> [] ->
    reachable (fst (delete_selected to_delete df))
| reach_mod mod_sno new_date new_desc new_acct new_type new_amt df :
    reachable df -> selectable mod_sno df ->
    reachable (fst (do_mod mod_sno new_date new_desc new_acct new_type new_amt df)).

(** The rows of one account, in frame order. *)
Definition of_account {A} (a : string) (df : frame A) : frame A :=
  filter (fun r => String.eqb (Account r) a) df.

(** What the column's cumulative sum arrives at on the list [l] taken alone. *)
Definition cumulative {A} `{AmountOps A} (l : list A) : A := last (cumsum l) azero.

(** The balance of the account's row at position [k] (counted from 0) is the
    cumulative sum of the amounts of its rows at positions [0..k], and of
    nothing else. *)
Definition balance_correct {A} `{AmountOps A} (df : frame A) : Prop :=
  forall (a : string) (k : nat) (r : row A),
    nth_error (of_account a df) k = Some r ->
    Balance r = cumulative (map Amount (firstn (S k) (of_account a df))).

(** Serial numbers in frame order are 1, 2, ..., N. *)
Definition ids_dense {A} (df : frame A) : Prop :=
  map SNo df = map Z.of_nat (seq 1 (List.length df)).

Definition key_le {A} (r1 r2 : row A) : Prop := key_leb r1 r2 = true.

(** The frame is ordered by account, then date. *)
Definition canonical_order {A} (df : frame A) : Prop := Sorted key_le df.

Definition date_eqb (d1 d2 : option Z) : bool :=
  match d1, d2 with
  | Some x, Some y => x =? y
  | None, None => true
  | _, _ => false
  end.

(** Rows of account [a] dated [d]. *)
Definition same_key {A} (a : string) (d : option Z) (r : row A) : bool :=
  String.eqb (Account r) a && date_eqb (Date r) d.

Definition with_key {A} (a : string) (d : option Z) (df : frame A) : frame A :=
  filter (same_key a d) df.

(** Rows of account [a] whose Date cell falls on the calendar day [day]. *)
Definition on_day {A} (a : string) (day : Z) (r : row A) : bool :=
  String.eqb (Account r) a
  && match dt_date (Date r) with
     | Some d => d =? day
     | None => false
     end.

(** The Date cell holds no time of day: it is missing or the midnight that
    [pd.to_datetime] makes of a [date], as for every row the forms write. *)
Definition midnight {A} (r : row A) : Prop :=
  Date r = None \/ exists day, Date r = pd_to_datetime day.

(** The accounts that occur in [rows], each once, in sorted order. *)
Definition string_lt (s1 s2 : string) : Prop := String.compare s1 s2 = Lt.

Definition accounts_present {A} (rows : frame A) (accts : list string) : Prop :=
  StronglySorted string_lt accts /\
  (forall a, In a accts <-> In a (map Account rows)).

(** The Balance cell of the last row of account [a] in [rows]. *)
Definition last_balance {A} `{AmountOps A} (a : string) (rows : frame A) : A :=
  last (map Balance (of_account a rows)) azero.

(** The sum of a list of integers. *)
Definition zsum (l : list Z) : Z := fold_right Z.add 0 l.

(** A row belongs to the report when its calendar day lies in
    [[start_pie, end_pie]] and its account is selected. *)
Definition in_report {A} (start_pie end_pie : Z) (sel_accts : list string) (r : row A)
  : Prop :=
  (exists day, dt_date (Date r) = Some day /\ start_pie <= day <= end_pie)
  /\ In (Account r) sel_accts.

Definition in_reportb {A} (start_pie end_pie : Z) (sel_accts : list string) (r : row A)
  : bool :=
  match dt_date (Date r) with
  | Some day => (start_pie <=? day) && (day <=? end_pie)
  | None => false
  end && existsb (String.eqb (Account r)) sel_accts.

(** ** Sequences of insertions *)

(** One submission of the Add Transaction form. *)
Record entry (A : Type) : Type := mkEntry {
  e_date : Z;
  e_desc : string;
  e_acct : string;
  e_type : ttype;
  e_amt : A
}.
Arguments mkEntry {A}.
Arguments e_date {A}.
Arguments e_desc {A}.
Arguments e_acct {A}.
Arguments e_type {A}.
Arguments e_amt {A}.

Definition add_entry {A} `{AmountOps A} (df : frame A) (e : entry A) : frame A :=
  fst (do_add (e_date e) (e_desc e) (e_acct e) (e_type e) (e_amt e) df).

Definition add_all {A} `{AmountOps A} (entries : list (entry A)) (df : frame A) : frame A :=
  fold_left add_entry entries df.

(** ** Decimal amounts in float64 *)

Definition float_of_Z (z : Z) : float :=
  if z <? 0 then PrimFloat.opp (PrimFloat.of_uint63 (Uint63.of_Z (- z)))
  else PrimFloat.of_uint63 (Uint63.of_Z z).

(** The float64 nearest to [c] hundredths; the amount box (step 0.01, format
    "%.2f") returns it for the decimal text of [c]/100. *)
Definition hundredths (c : Z) : float :=
  PrimFloat.div (float_of_Z c) (float_of_Z 100).

(** Entering the signed decimal amount [c]/100: Credit or Debit by its sign,
    the magnitude in the amount box. *)
Definition decimal_entry (d : Z) (desc acct : string) (c : Z) : entry float :=
  mkEntry d desc acct (if c <? 0 then Debit else Credit) (hundredths (Z.abs c)).

(** The signed float64 amount that [decimal_entry] puts into the Amount
    column. *)
Definition decimal_amount (c : Z) : float :=
  signed (if c <? 0 then Debit else Credit) (hundredths (Z.abs c)).

(** ** Files of whole numbers *)

Definition in_int64 (z : Z) : Prop := - 2 ^ 63 <= z < 2 ^ 63.

(** Every Amount cell of the file is an integer literal that fits 64 bits:
    the case in which [read_csv] makes the column int64. *)
Definition int_file (file : list (csv_row Z)) : Prop :=
  Forall (fun c => exists z, csv_Amount c = Some z /\ in_int64 z) file.

(** ** Sample data *)

(** Day ordinal of a day of January 2024 (days since 1970-01-01). *)
Definition jan2024 (day : Z) : Z := 19722 + day.

Definition sample_file : list (csv_row float) :=
  [ mkCsv 7 (pd_to_datetime (jan2024 2)) "Pay" "Cash" (Some (PrimFloat.opp (float_of_Z 40)));
    mkCsv 7 (pd_to_datetime (jan2024 1)) "Open" "Cash" (Some (float_of_Z 100));
    mkCsv 0 None "undated" "Cash" None;
    mkCsv 3 (pd_to_datetime (jan2024 1)) "Seed" "Bank" (Some (float_of_Z 0)) ].

Definition sample_loaded : frame float := load (Some sample_file).

Definition sample_added : frame float :=
  fst (do_add (jan2024 1) "Gift" "Cash" Credit (float_of_Z 50) sample_loaded).

Definition sample_deleted : frame float :=
  fst (delete_selected [1; 42] sample_added).

Definition sample_ledger : frame float :=
  fst (do_mod 2 (jan2024 3) "Moved" "Savings" Debit (float_of_Z 7) sample_deleted).

(** A file with cents in two accounts, the records of the accounts
    interleaved. *)
Definition decimal_file : list (csv_row float) :=
  [ mkCsv 1 (pd_to_datetime (jan2024 1)) "a" "Cash" (Some (hundredths 10));
    mkCsv 2 (pd_to_datetime (jan2024 1)) "b" "Bank" (Some (hundredths 82));
    mkCsv 3 (pd_to_datetime (jan2024 2)) "c" "Cash" (Some (hundredths 20));
    mkCsv 4 (pd_to_datetime (jan2024 2)) "d" "Bank" (Some (hundredths 367));
    mkCsv 5 (pd_to_datetime (jan2024 3)) "e" "Cash" (Some (hundredths 30));
    mkCsv 6 (pd_to_datetime (jan2024 3)) "f" "Bank" (Some (hundredths 321)) ].

Definition decimal_ledger : frame float := load (Some decimal_file).

(** A file with two records of one account and one calendar day, the later
    time of day first. *)
Definition clock_file : list (csv_row float) :=
  [ mkCsv 1 (Some (jan2024 5 * ns_per_day + 10 * 3600 * 1000000000)) "late" "Cash"
          (Some (float_of_Z 1));
    mkCsv 2 (Some (jan2024 5 * ns_per_day + 9 * 3600 * 1000000000)) "early" "Cash"
          (Some (float_of_Z 2)) ].

(** Ten credits of 0.10 on one account and two debits on another. *)
Definition tenths_file : list (csv_row float) :=
  map (fun day => mkCsv day (pd_to_datetime (jan2024 day)) "tenth" "Cash"
                        (Some (hundredths 10)))
      [1; 2; 3; 4; 5; 6; 7; 8; 9; 10]
  ++ [ mkCsv 11 (pd_to_datetime (jan2024 3)) "fee" "Bank"
             (Some (PrimFloat.opp (hundredths 25)));
       mkCsv 12 (pd_to_datetime (jan2024 4)) "rent" "Bank"
             (Some (PrimFloat.opp (hundredths 50))) ].

Definition tenths_ledger : frame float := load (Some tenths_file).

(** A file of whole numbers whose sum leaves the 64 bits. *)
Definition wide_file : list (csv_row Z) :=
  [ mkCsv 1 (pd_to_datetime (jan2024 1)) "a" "Cash" (Some 9223372036854775807);
    mkCsv 2 (pd_to_datetime (jan2024 2)) "b" "Cash" (Some 1);
    mkCsv 3 (pd_to_datetime (jan2024 2)) "c" "Bank" (Some (-5)) ].

(** ** The modify form (lines 101-112) *)

(** [df.loc[df["S.No"] == mod_sno].iloc[0]]: the first matching row;
    [None] stands for the IndexError of an empty selection. *)
Definition selected_row {A} (mod_sno : Z) (df : frame A) : option (row A) :=
  find (fun r => SNo r =? mod_sno) df.

(** [list.index]: position of the first equal element, [None] for the
    ValueError. *)
Fixpoint list_index (x : string) (l : list string) : option nat :=
  match l with
  | [] => None
  | y :: rest => if String.eqb y x then Some 0%nat
                 else option_map S (list_index x rest)
  end.

(** What the form submits. *)
Record mod_form (A : Type) : Type := mkForm {
  f_date : Z;
  f_desc : string;
  f_acct : string;
  f_type : ttype;
  f_amt : A
}.
Arguments mkForm {A}.
Arguments f_date {A}.
Arguments f_desc {A}.
Arguments f_acct {A}.
Arguments f_type {A}.
Arguments f_amt {A}.

(** Lines 105-109: the values the form is filled with.  [row.Date.date()]
    has no value for NaT, and [accounts.index(row.Account)] none for an
    account that is not listed; the select box then shows
    [accounts[index]], the type is Credit for a positive amount and Debit
    otherwise, and the amount box holds [abs(row.Amount)]. *)
Definition form_defaults {A} `{AmountOps A} (accounts : list string) (r : row A)
  : option (mod_form A) :=
  match dt_date (Date r) with
  | None => None
  | Some day =>
      match list_index (Account r) accounts with
      | None => None
      | Some i =>
          match nth_error accounts i with
          | None => None
          | Some acct =>
              Some (mkForm day (Description r) acct
                           (if altb azero (Amount r) then Credit else Debit)
                           (aabs (Amount r)))
          end
      end
  end.

(** Lines 111-120 on a submitted form. *)
Definition submit_form {A} `{AmountOps A} (mod_sno : Z) (f : mod_form A) (df : frame A)
  : frame A * notice :=
  do_mod mod_sno (f_date f) (f_desc f) (f_acct f) (f_type f) (f_amt f) df.

(** Picking a serial and pressing Update without touching the form.  [None]
    when no update takes place: the serial is falsy ([if mod_sno:]), or one
    of the lookups above has no value. *)
Definition update_untouched {A} `{AmountOps A}
    (accounts : list string) (mod_sno : Z) (df : frame A) : option (frame A * notice) :=
  if mod_sno =? 0 then None
  else
    match selected_row mod_sno df with
    | None => None
    | Some r =>
        match form_defaults accounts r with
        | None => None
        | Some f => Some (submit_form mod_sno f df)
        end
    end.

(** ** The default date range of the report (lines 128-132) *)

(** The timestamps of the Date column, NaT skipped. *)
Definition valid_dates {A} (df : frame A) : list Z :=
  flat_map (fun r => match Date r with Some t => [t] | None => [] end) df.

(** [Series.min()] / [Series.max()], NaT when nothing is left. *)
Definition series_min (l : list Z) : option Z :=
  match l with
  | [] => None
  | t :: rest => Some (fold_left Z.min rest t)
  end.

Definition series_max (l : list Z) : option Z :=
  match l with
  | [] => None
  | t :: rest => Some (fold_left Z.max rest t)
  end.

(** [df["Date"].min().date()] and [df["Date"].max().date()]; [None] when the
    column holds NaT only, where [.date()] has no value. *)
Definition min_date {A} (df : frame A) : option Z := dt_date (series_min (valid_dates df)).
Definition max_date {A} (df : frame A) : option Z := dt_date (series_max (valid_dates df)).

(** The rows with a date whose account is selected. *)
Definition dated_and_selected {A} (sel_accts : list string) (r : row A) : bool :=
  match Date r with
  | Some _ => isin String.eqb (Account r) sel_accts
  | None => false
  end.

(** ** Where an insertion lands *)

(** The rows of [df] that do not come after [r] in the order, and the others. *)
Definition rows_upto {A} (r : row A) (df : frame A) : frame A :=
  filter (fun x => key_leb x r) df.

Definition rows_past {A} (r : row A) (df : frame A) : frame A :=
  filter (fun x => negb (key_leb x r)) df.
(** ** Facts about the order *)

Lemma string_compare_refl (s : string) : String.compare s s = Eq.
Proof.
  induction s as [|c s IH]; simpl; [reflexivity|].
  unfold Ascii.compare. now rewrite N.compare_refl.
Qed.

Lemma string_compare_lt_trans (s1 s2 s3 : string) :
  String.compare s1 s2 = Lt -> String.compare s2 s3 = Lt -> String.compare s1 s3 = Lt.
Proof.
  revert s2 s3. induction s1 as [|c1 s1 IH]; intros [|c2 s2] [|c3 s3]; simpl;
    try discriminate; try reflexivity.
  unfold Ascii.compare.
  destruct (N.compare_spec (N_of_ascii c1) (N_of_ascii c2)) as [E12|L12|G12];
    try discriminate.
  - rewrite E12. destruct (N_of_ascii c2 ?= N_of_ascii c3)%N; try discriminate.
    + apply IH.
    + reflexivity.
  - intros _.
    destruct (N.compare_spec (N_of_ascii c2) (N_of_ascii c3)) as [E23|L23|G23];
      try discriminate; intros _.
    + rewrite <- E23. now apply N.compare_lt_iff in L12 as ->.
    + assert (N_of_ascii c1 < N_of_ascii c3)%N as L13 by lia.
      now apply N.compare_lt_iff in L13 as ->.
Qed.

Lemma date_leb_refl (d : option Z) : date_leb d d = true.
Proof. destruct d; simpl; [apply Z.leb_refl | reflexivity]. Qed.

Lemma date_leb_total (d1 d2 : option Z) : date_leb d1 d2 = false -> date_leb d2 d1 = true.
Proof.
  destruct d1, d2; simpl; try discriminate; try reflexivity.
  intros H. apply Z.leb_gt in H. apply Z.leb_le. lia.
Qed.

Lemma date_eqb_eq (d1 d2 : option Z) : date_eqb d1 d2 = true <-> d1 = d2.
Proof.
  destruct d1, d2; simpl; split; intros H; try discriminate; try reflexivity.
  - apply Z.eqb_eq in H. now subst.
  - inversion H. apply Z.eqb_refl.
Qed.

(** A date entered through a form is stored as the midnight of its day, so
    for such rows the Date cell and the calendar day determine each other. *)
Lemma dt_date_midnight (d : Z) : dt_date (pd_to_datetime d) = Some d.
Proof. unfold dt_date, pd_to_datetime. f_equal. now apply Z.div_mul. Qed.

Lemma key_leb_total {A} (r1 r2 : row A) : key_leb r1 r2 = false -> key_leb r2 r1 = true.
Proof.
  unfold key_leb. rewrite (String.compare_antisym (Account r2) (Account r1)).
  destruct (String.compare (Account r1) (Account r2)); simpl;
    try discriminate; try reflexivity.
  apply date_leb_total.
Qed.

Lemma same_key_leb {A} a d (r1 r2 : row A) :
  same_key a d r1 = true -> same_key a d r2 = true -> key_leb r1 r2 = true.
Proof.
  unfold same_key, key_leb. intros H1 H2.
  apply andb_true_iff in H1 as [Ha1 Hd1]. apply andb_true_iff in H2 as [Ha2 Hd2].
  apply String.eqb_eq in Ha1, Ha2. apply date_eqb_eq in Hd1, Hd2.
  rewrite Ha1, Ha2, Hd1, Hd2, string_compare_refl. apply date_leb_refl.
Qed.

(** ** Facts about sort_values *)

Lemma sort_insert_perm {A} (r : row A) df : Permutation (sort_insert r df) (r :: df).
Proof.
  induction df as [|r' rest IH]; simpl; [reflexivity|].
  destruct (key_leb r r'); [reflexivity|].
  rewrite IH. apply perm_swap.
Qed.

Lemma sort_values_perm {A} (df : frame A) : Permutation (sort_values df) df.
Proof.
  induction df as [|r rest IH]; simpl; [reflexivity|].
  rewrite sort_insert_perm. now constructor.
Qed.

Lemma sort_insert_sorted {A} (r : row A) df :
  canonical_order df -> canonical_order (sort_insert r df).
Proof.
  unfold canonical_order. induction 1 as [|r' rest Hs IH Hd]; simpl.
  - repeat constructor.
  - destruct (key_leb r r') eqn:E.
    + constructor; [now constructor | now constructor].
    + constructor; [exact IH|].
      destruct rest as [|r'' rest']; simpl.
      * constructor. now apply key_leb_total.
      * destruct (key_leb r r''); constructor.
        -- now apply key_leb_total.
        -- now inversion Hd.
Qed.

Lemma sort_values_sorted {A} (df : frame A) : canonical_order (sort_values df).
Proof.
  induction df as [|r rest IH]; simpl; [constructor|].
  now apply sort_insert_sorted.
Qed.

(** Sorting a frame that is already in order changes nothing. *)
Lemma sort_values_id {A} (df : frame A) : canonical_order df -> sort_values df = df.
Proof.
  unfold canonical_order. induction 1 as [|r rest Hs IH Hd]; simpl; [reflexivity|].
  rewrite IH. destruct Hd as [|r' rest' Hle]; simpl; [reflexivity|].
  unfold key_le in Hle. now rewrite Hle.
Qed.

(** Rows with one key come out in the order they went in. *)
Lemma sort_insert_with_key {A} a d (r : row A) df :
  with_key a d (sort_insert r df) = with_key a d (r :: df).
Proof.
  unfold with_key. induction df as [|r' rest IH]; simpl; [reflexivity|].
  destruct (key_leb r r') eqn:E; simpl; [reflexivity|].
  rewrite IH. simpl.
  destruct (same_key a d r) eqn:E1, (same_key a d r') eqn:E2; try reflexivity.
  rewrite (same_key_leb a d r r' E1 E2) in E. discriminate.
Qed.

Lemma sort_values_with_key {A} a d (df : frame A) :
  with_key a d (sort_values df) = with_key a d df.
Proof.
  induction df as [|r rest IH]; simpl; [reflexivity|].
  rewrite sort_insert_with_key. unfold with_key in *. simpl. now rewrite IH.
Qed.

(** ** Facts about the two column assignments *)

Section Columns.
Context {A : Type} `{AmountOps A}.

Lemma accum_set_same {S} (accum : string -> S) lab v : accum_set accum lab v lab = v.
Proof. unfold accum_set. now rewrite String.eqb_refl. Qed.

Lemma accum_set_other {S} (accum : string -> S) lab v k :
  k <> lab -> accum_set accum lab v k = accum k.
Proof. unfold accum_set. intros Hk. apply String.eqb_neq in Hk. now rewrite Hk. Qed.

Lemma recompute_unfold (df : frame A) :
  recompute df = with_cumsum accum_init (assign_SNo 0 (sort_values df)).
Proof. reflexivity. Qed.

Lemma assign_SNo_payload (i : Z) (df : frame A) :
  map payload (assign_SNo i df) = map payload df.
Proof.
  revert i. induction df as [|r rest IH]; intros i; simpl; [reflexivity|].
  now rewrite IH.
Qed.

Lemma assign_SNo_length (i : Z) (df : frame A) :
  List.length (assign_SNo i df) = List.length df.
Proof.
  revert i. induction df as [|r rest IH]; intros i; simpl; [reflexivity|].
  now rewrite IH.
Qed.

Lemma assign_SNo_SNo (i : Z) (df : frame A) :
  map SNo (assign_SNo i df) = map (fun k => i + Z.of_nat k) (seq 1 (List.length df)).
Proof.
  revert i. induction df as [|r rest IH]; intros i; simpl; [reflexivity|].
  f_equal. rewrite IH, <- (seq_shift _ 1), map_map.
  apply map_ext. intros k. lia.
Qed.

(** Numbering again from the same index changes nothing. *)
Lemma assign_SNo_again (i : Z) (df : frame A) :
  assign_SNo i (assign_SNo i df) = assign_SNo i df.
Proof.
  revert i. induction df as [|r rest IH]; intros i; simpl; [reflexivity|].
  now rewrite IH.
Qed.

Lemma assign_SNo_with_cumsum (i : Z) accum (df : frame A) :
  assign_SNo i (with_cumsum accum df) = with_cumsum accum (assign_SNo i df).
Proof.
  unfold with_cumsum. revert i accum.
  induction df as [|r rest IH]; intros i accum; simpl; [reflexivity|].
  f_equal. apply IH.
Qed.

Lemma with_cumsum_payload accum (df : frame A) :
  map payload (with_cumsum accum df) = map payload df.
Proof.
  unfold with_cumsum. revert accum.
  induction df as [|r rest IH]; intros accum; simpl; [reflexivity|].
  now rewrite IH.
Qed.

Lemma with_cumsum_SNo accum (df : frame A) :
  map SNo (with_cumsum accum df) = map SNo df.
Proof.
  unfold with_cumsum. revert accum.
  induction df as [|r rest IH]; intros accum; simpl; [reflexivity|].
  now rewrite IH.
Qed.

Lemma with_cumsum_length accum (df : frame A) :
  List.length (with_cumsum accum df) = List.length df.
Proof.
  rewrite <- (length_map payload), with_cumsum_payload. apply length_map.
Qed.

(** The old Balance column plays no part in the new one. *)
Lemma with_cumsum_again accum accum' (df : frame A) :
  with_cumsum accum (with_cumsum accum' df) = with_cumsum accum df.
Proof.
  unfold with_cumsum. revert accum accum'.
  induction df as [|r rest IH]; intros accum accum'; simpl; [reflexivity|].
  f_equal. apply IH.
Qed.

(** In the filled frame, the row at position [k] of account [a] carries what
    the cumulative sum, started from the state of [a], arrives at on the
    amounts of the account's rows up to it. *)
Lemma with_cumsum_running accum (df : frame A) (a : string) (k : nat) (r : row A) :
  nth_error (of_account a (with_cumsum accum df)) k = Some r ->
  Balance r =
    last (running (accum a)
            (map Amount (firstn (S k) (of_account a (with_cumsum accum df)))))
         azero.
Proof.
  unfold with_cumsum, of_account. revert accum k.
  induction df as [|r0 rest IH]; intros accum k; simpl.
  - destruct k; discriminate.
  - destruct (String.eqb (Account r0) a) eqn:E.
    + apply String.eqb_eq in E.
      destruct k as [|k]; simpl.
      * intros [= <-]. simpl. now rewrite E.
      * intros Hk. rewrite (IH _ _ Hk). subst a.
        rewrite accum_set_same.
        match goal with |- context [firstn (S k) ?l0] => destruct l0 as [|y l] end;
          [destruct k; discriminate|].
        reflexivity.
    + intros Hk. rewrite (IH _ _ Hk).
      rewrite accum_set_other; [reflexivity|].
      apply String.eqb_neq in E. congruence.
Qed.

Lemma recompute_payload (df : frame A) :
  map payload (recompute df) = map payload (sort_values df).
Proof. now rewrite recompute_unfold, with_cumsum_payload, assign_SNo_payload. Qed.

Lemma recompute_length (df : frame A) : List.length (recompute df) = List.length df.
Proof.
  rewrite <- (length_map payload), recompute_payload, length_map.
  apply Permutation_length, sort_values_perm.
Qed.

Lemma recompute_nil : recompute (@nil (row A)) = [].
Proof. reflexivity. Qed.

End Columns.

(** ** Predicates that read the entered columns only *)

Lemma cons_eq_inv {T} (x y : T) (l l' : list T) : x :: l = y :: l' -> x = y /\ l = l'.
Proof. intros [= -> ->]. now split. Qed.

Lemma key_leb_payload {A} (r1 r2 r1' r2' : row A) :
  payload r1 = payload r1' -> payload r2 = payload r2' ->
  key_leb r1 r2 = key_leb r1' r2'.
Proof. unfold payload, key_leb. intros [= -> _ -> _] [= -> _ -> _]. reflexivity. Qed.

Lemma canonical_order_payload {A} (df df' : frame A) :
  map payload df = map payload df' -> canonical_order df -> canonical_order df'.
Proof.
  unfold canonical_order. intros E Hs. revert df' E.
  induction Hs as [|r rest Hs IH Hd]; intros [|r' rest'] E; try discriminate.
  - constructor.
  - cbn [map] in E. apply cons_eq_inv in E as [Er Erest].
    constructor; [now apply IH|].
    destruct Hd as [|r2 rest2 Hle]; destruct rest' as [|r2' rest2']; try discriminate.
    + constructor.
    + cbn [map] in Erest. apply cons_eq_inv in Erest as [Er2 _].
      constructor. unfold key_le in *.
      now rewrite <- (key_leb_payload r r2 r' r2' Er Er2).
Qed.

Lemma filter_payload {A} (p : row A -> bool) (df df' : frame A) :
  (forall r r', payload r = payload r' -> p r = p r') ->
  map payload df = map payload df' ->
  map payload (filter p df) = map payload (filter p df').
Proof.
  intros Hp. revert df'.
  induction df as [|r rest IH]; intros [|r' rest'] E; try discriminate; [reflexivity|].
  cbn [map] in E. apply cons_eq_inv in E as [Er Erest]. cbn [filter].
  rewrite (Hp r r' Er). destruct (p r'); cbn [map]; [f_equal; [exact Er|]|]; now apply IH.
Qed.

Lemma same_key_payload {A} a d (r r' : row A) :
  payload r = payload r' -> same_key a d r = same_key a d r'.
Proof. unfold payload, same_key. intros [= -> _ -> _]. reflexivity. Qed.

(** ** The recompute pass *)

Section Recompute.
Context {A : Type} `{AmountOps A}.

Lemma recompute_canonical (df : frame A) : canonical_order (recompute df).
Proof.
  apply (canonical_order_payload (sort_values df)).
  - symmetry. apply recompute_payload.
  - apply sort_values_sorted.
Qed.

Lemma recompute_ids (df : frame A) : ids_dense (recompute df).
Proof.
  unfold ids_dense. rewrite recompute_unfold at 1.
  rewrite with_cumsum_SNo, assign_SNo_SNo.
  rewrite recompute_length.
  rewrite (Permutation_length (sort_values_perm df)).
  apply map_ext. intros k. lia.
Qed.

Lemma recompute_balance (df : frame A) : balance_correct (recompute df).
Proof.
  intros a k r Hk. rewrite recompute_unfold in *.
  apply (with_cumsum_running _ _ _ _ _ Hk).
Qed.

Lemma recompute_with_key a d (df : frame A) :
  map payload (with_key a d (recompute df)) = map payload (with_key a d df).
Proof.
  rewrite <- (sort_values_with_key a d df). unfold with_key.
  apply filter_payload.
  - apply same_key_payload.
  - apply recompute_payload.
Qed.

Lemma recompute_fixed (df : frame A) : recompute (recompute df) = recompute df.
Proof.
  rewrite (recompute_unfold (recompute df)).
  rewrite (sort_values_id _ (recompute_canonical df)).
  rewrite recompute_unfold.
  now rewrite assign_SNo_with_cumsum, assign_SNo_again, with_cumsum_again.
Qed.

(** Every frame the script holds came out of a recompute pass. *)
Lemma reachable_recompute (df : frame A) :
  reachable df -> exists df0, df = recompute df0.
Proof.
  induction 1 as [file | d desc acct t amt df _ IH
                 | to_delete df _ IH _
                 | mod_sno nd ndesc nacct nt namt df _ IH _].
  - unfold load. destruct file as [records|]; [|now exists []].
    destruct (map coerce records) as [|r rest] eqn:E; [now exists []|].
    now exists (r :: rest).
  - unfold do_add. destruct (falsy (strip desc)); simpl; [exact IH|].
    eexists; reflexivity.
  - unfold delete_selected. destruct to_delete; simpl; [exact IH|].
    eexists; reflexivity.
  - unfold do_mod. simpl. eexists; reflexivity.
Qed.

End Recompute.

(** ** Dropping rows from a frame in canonical order *)

Lemma date_leb_trans (d1 d2 d3 : option Z) :
  date_leb d1 d2 = true -> date_leb d2 d3 = true -> date_leb d1 d3 = true.
Proof.
  destruct d1, d2, d3; simpl; try discriminate; try reflexivity.
  rewrite !Z.leb_le. lia.
Qed.

Lemma key_le_trans {A} (r1 r2 r3 : row A) : key_le r1 r2 -> key_le r2 r3 -> key_le r1 r3.
Proof.
  unfold key_le, key_leb.
  destruct (String.compare (Account r1) (Account r2)) eqn:E12; try discriminate;
    destruct (String.compare (Account r2) (Account r3)) eqn:E23; try discriminate;
    intros H12 H23.
  - apply String.compare_eq_iff in E12, E23. rewrite E12, E23, string_compare_refl.
    now apply (date_leb_trans _ (Date r2)).
  - apply String.compare_eq_iff in E12. now rewrite E12, E23.
  - apply String.compare_eq_iff in E23. now rewrite <- E23, E12.
  - now rewrite (string_compare_lt_trans _ _ _ E12 E23).
Qed.

Lemma canonical_strongly {A} (df : frame A) :
  canonical_order df -> StronglySorted key_le df.
Proof.
  apply Sorted_StronglySorted. intros r1 r2 r3. apply key_le_trans.
Qed.

Lemma filter_canonical {A} (p : row A -> bool) (df : frame A) :
  canonical_order df -> canonical_order (filter p df).
Proof.
  intros Hs. apply canonical_strongly in Hs. apply StronglySorted_Sorted.
  induction Hs as [|r rest Hs IH Hall]; simpl; [constructor|].
  destruct (p r); [|exact IH].
  constructor; [exact IH|].
  apply Forall_forall. intros r' Hin. apply filter_In in Hin as [Hin _].
  now apply (proj1 (Forall_forall _ _) Hall).
Qed.

Lemma loc_map {R} (p : R -> bool) (df : list R) : loc (map p df) df = filter p df.
Proof.
  induction df as [|r rest IH]; simpl; [reflexivity|].
  now rewrite IH.
Qed.

Lemma filter_none {R} (p : R -> bool) (l : list R) :
  (forall x, In x l -> p x = false) -> filter p l = [].
Proof.
  induction l as [|x rest IH]; simpl; intros Hp; [reflexivity|].
  rewrite (Hp x (or_introl eq_refl)). apply IH. intros y Hy. apply Hp. now right.
Qed.

Lemma last_snoc_balance {A} `{AmountOps A} (l : frame A) (x : row A) :
  last (map Balance (l ++ [x])) azero = Balance x.
Proof. rewrite map_app. simpl. apply last_last. Qed.

Lemma filter_all {R} (p : R -> bool) (df : list R) :
  (forall r, In r df -> p r = true) -> filter p df = df.
Proof.
  induction df as [|r rest IH]; simpl; intros Hp; [reflexivity|].
  rewrite (Hp r (or_introl eq_refl)). f_equal. apply IH. intros r' Hr'. apply Hp. now right.
Qed.

Lemma isin_In (x : Z) (values : list Z) : isin Z.eqb x values = true <-> In x values.
Proof.
  unfold isin. rewrite existsb_exists. split.
  - intros [y [Hy E]]. apply Z.eqb_eq in E. now subst.
  - intros Hx. exists x. split; [exact Hx | apply Z.eqb_refl].
Qed.

(** A frame in canonical order with its derived columns in place is a fixed
    point of the pass. *)
Lemma reachable_fixed {A} `{AmountOps A} (df : frame A) :
  reachable df -> recompute df = df.
Proof.
  intros Hr. destruct (reachable_recompute df Hr) as [df0 ->]. apply recompute_fixed.
Qed.

(** ** Sample data: a ledger file and a few sidebar actions *)

Lemma sample_reachable : reachable sample_ledger.
Proof.
  unfold sample_ledger, sample_deleted, sample_added, sample_loaded.
  apply reach_mod.
  - apply reach_delete.
    + apply reach_add, reach_load.
    + vm_compute. discriminate.
  - split; [vm_compute; tauto | lia].
Qed.

(** ** Claims *)

(** *** Sums of an integer column *)

Lemma wrap64_congr (a b : Z) : a mod 2 ^ 64 = b mod 2 ^ 64 -> wrap64 a = wrap64 b.
Proof.
  intros E. unfold wrap64. f_equal.
  rewrite (Z.add_mod a), (Z.add_mod b) by lia. now rewrite E.
Qed.

Lemma wrap64_mod (z : Z) : wrap64 z mod 2 ^ 64 = z mod 2 ^ 64.
Proof.
  unfold wrap64.
  rewrite Zminus_mod, Z.mod_mod by lia.
  rewrite <- Zminus_mod. f_equal. lia.
Qed.

Lemma wrap64_add_l (a b : Z) : wrap64 (wrap64 a + b) = wrap64 (a + b).
Proof.
  apply wrap64_congr.
  rewrite (Z.add_mod (wrap64 a)), wrap64_mod, <- Z.add_mod by lia. reflexivity.
Qed.

Lemma wrap64_small (z : Z) : - 2 ^ 63 <= z < 2 ^ 63 -> wrap64 z = z.
Proof. intros Hz. unfold wrap64. rewrite Z.mod_small; lia. Qed.

Lemma int64_fold (l : list Z) (acc : Z) :
  fold_left int64_add l (wrap64 acc) = wrap64 (acc + zsum l).
Proof.
  revert acc. induction l as [|x l IH]; intros acc; simpl.
  - now rewrite Z.add_0_r.
  - unfold int64_add at 2. rewrite wrap64_add_l, IH. f_equal. lia.
Qed.

(** The sum of an integer column is the sum of its cells, on 64 bits. *)
Lemma int64_asum (l : list Z) : @asum Z int64 l = wrap64 (zsum l).
Proof. exact (int64_fold l 0). Qed.

Lemma zsum_wrap_map {T} (f : T -> Z) (l : list T) :
  wrap64 (zsum (map (fun x => wrap64 (f x)) l)) = wrap64 (zsum (map f l)).
Proof.
  induction l as [|x l IH]; simpl; [reflexivity|].
  rewrite wrap64_add_l. rewrite Z.add_comm, <- wrap64_add_l, IH, wrap64_add_l.
  f_equal. lia.
Qed.

Lemma int64_add_wrap (acc x : Z) : int64_add x (wrap64 acc) = wrap64 (acc + x).
Proof. unfold int64_add. now rewrite Z.add_comm, wrap64_add_l. Qed.

Lemma int64_running (acc c : Z) (x : Z) (l : list Z) (d : Z) :
  last (@running Z int64 (wrap64 acc, c) (x :: l)) d = wrap64 (acc + zsum (x :: l)).
Proof.
  revert acc x. induction l as [|y l IH]; intros acc x.
  - cbn [running cumsum_step int64 int64_step fst snd last zsum fold_right].
    rewrite int64_add_wrap. f_equal. lia.
  - change (last (@running Z int64 (wrap64 acc, c) (x :: y :: l)) d)
      with (last (@running Z int64 (int64_add x (wrap64 acc), c) (y :: l)) d).
    rewrite int64_add_wrap, IH. f_equal. cbn [zsum fold_right]. lia.
Qed.

(** The cumulative sum of an integer column arrives at the sum of its cells,
    on 64 bits. *)
Lemma int64_cumulative (l : list Z) : @cumulative Z int64 l = wrap64 (zsum l).
Proof.
  destruct l as [|x l]; [reflexivity|].
  exact (int64_running 0 0 x l 0).
Qed.



(** C2 (dense serial numbers).  After every insert, update and delete (and
    after the load), the S.No column read in frame order is 1, 2, ..., N, and
    the frame is in canonical order: by account, then by date. *)
Theorem ids_after_every_operation {A} `{AmountOps A} (df : frame A) :
  reachable df -> ids_dense df /\ canonical_order df.
Proof.
  intros Hr. destruct (reachable_recompute df Hr) as [df0 ->]. split.
  - apply recompute_ids.
  - apply recompute_canonical.
Qed.

Lemma ids_after_every_operation_witness :
  ids_dense sample_ledger /\ canonical_order sample_ledger.
Proof. apply ids_after_every_operation. exact sample_reachable. Defined.

Lemma strongly_sorted_tail {A} (l1 l2 : frame A) :
  StronglySorted key_le (l1 ++ l2) -> StronglySorted key_le l2.
Proof.
  induction l1 as [|x l1 IH]; simpl; intros Hs; [exact Hs|].
  apply StronglySorted_inv in Hs as [Hs _]. now apply IH.
Qed.

Lemma key_le_same_account {A} (x y : row A) :
  key_le x y -> Account x = Account y -> date_leb (Date x) (Date y) = true.
Proof.
  unfold key_le, key_leb. intros Hle E.
  now rewrite E, string_compare_refl in Hle.
Qed.

Lemma key_le_between {A} (x z y : row A) :
  key_le x z -> key_le z y -> Account x = Account y -> Account z = Account x.
Proof.
  unfold key_le, key_leb. intros Hxz Hzy E.
  destruct (String.compare (Account x) (Account z)) eqn:Exz; try discriminate.
  - symmetry. now apply String.compare_eq_iff.
  - rewrite <- E in Hzy. rewrite String.compare_antisym, Exz in Hzy. discriminate.
Qed.

Lemma on_day_same_key {A} (a : string) (day : Z) (r : row A) :
  midnight r -> on_day a day r = same_key a (pd_to_datetime day) r.
Proof.
  unfold on_day, same_key. intros [Hn|[d Hd]].
  - now rewrite Hn.
  - rewrite Hd, dt_date_midnight. f_equal. unfold pd_to_datetime, date_eqb.
    apply eq_true_iff_eq. rewrite !Z.eqb_eq. split; [congruence|].
    intros E. apply Z.mul_cancel_r in E; [exact E|]. unfold ns_per_day. lia.
Qed.

Lemma on_day_payload {A} a day (r r' : row A) :
  payload r = payload r' -> on_day a day r = on_day a day r'.
Proof. unfold payload, on_day. intros [= -> _ -> _]. reflexivity. Qed.

(** C7 as stated does not hold for the calendar date.  Two records of the
    account Cash on the same calendar day, the one of 10:00 before the one of
    09:00 in the file: the loader puts the one of 09:00 first. *)
Lemma same_day_swapped :
  map (fun c => (csv_Account c, dt_date (csv_Date c), csv_Description c)) clock_file
  = [("Cash", Some (jan2024 5), "late"); ("Cash", Some (jan2024 5), "early")]%string
  /\ map (fun r => (Account r, dt_date (Date r), Description r)) (load (Some clock_file))
     = [("Cash", Some (jan2024 5), "early"); ("Cash", Some (jan2024 5), "late")]%string
  /\ map Description (filter (on_day "Cash" (jan2024 5)) (map coerce clock_file))
     = ["late"; "early"]%string
  /\ map Description (filter (on_day "Cash" (jan2024 5)) (recompute (map coerce clock_file)))
     = ["early"; "late"]%string.
Proof. repeat split; vm_compute; reflexivity. Qed.

(** C7, as amended (order stability for equal Date cells).  For every
    account [a] and every value [d] of the Date cell, the rows with that
    account and that cell come out of a recompute in the order they went in:
    this holds for the pass itself, and so for the load and for each mutating
    operation, whose frame just before the pass is the loaded table, the frame
    with the new row appended, the frame with the selected rows dropped, or
    the frame with the edited cells.  The Date cell is a timestamp and the
    sort compares it whole.  When no row carries a time of day, as in every
    ledger filled through the forms, the rows of an account and a calendar
    day keep their order; rows of one day with different times of day are
    put in the order of their times. *)
Theorem recompute_is_stable {A} `{AmountOps A} (a : string) (d : option Z) :
  (forall df : frame A,
      map payload (with_key a d (recompute df)) = map payload (with_key a d df))
  /\ (forall file : option (list (csv_row A)),
      map payload (with_key a d (load file))
      = map payload (with_key a d (match file with
                                   | Some records => map coerce records
                                   | None => []
                                   end)))
  /\ (forall dt desc acct t amt (df : frame A),
      map payload (with_key a d (fst (do_add dt desc acct t amt df)))
      = map payload (with_key a d (if falsy (strip desc) then df
                                   else df ++ [new_row df dt desc acct t amt])))
  /\ (forall to_delete (df : frame A),
      map payload (with_key a d (fst (delete_selected to_delete df)))
      = map payload (with_key a d
          (match to_delete with
           | [] => df
           | _ :: _ => loc (map (fun r => negb (isin Z.eqb (SNo r) to_delete)) df) df
           end)))
  /\ (forall mod_sno nd ndesc nacct nt namt (df : frame A),
      map payload (with_key a d (fst (do_mod mod_sno nd ndesc nacct nt namt df)))
      = map payload (with_key a d
          (assign_where mod_sno (pd_to_datetime nd) ndesc nacct (signed nt namt) df)))
  /\ (forall (day : Z) (df : frame A),
      Forall midnight df ->
      map payload (filter (on_day a day) (recompute df))
      = map payload (filter (on_day a day) df))
  /\ (forall (df : frame A) (r1 r2 : row A) (l1 l2 l3 : frame A),
      recompute df = l1 ++ r1 :: l2 ++ r2 :: l3 ->
      Account r1 = Account r2 ->
      date_leb (Date r1) (Date r2) = true).
Proof.
  split; [|split; [|split; [|split; [|split; [|split]]]]]; intros.
  - apply recompute_with_key.
  - unfold load. destruct file as [records|]; [|reflexivity].
    destruct (map coerce records) as [|r rest]; [reflexivity|].
    apply recompute_with_key.
  - unfold do_add. destruct (falsy (strip desc)); simpl; [reflexivity|].
    apply recompute_with_key.
  - unfold delete_selected. destruct to_delete; simpl; [reflexivity|].
    apply recompute_with_key.
  - unfold do_mod. simpl. apply recompute_with_key.
  - rename H0 into Hmid.
    rewrite (filter_payload (on_day a day) (recompute df) (sort_values df)
               (on_day_payload a day) (recompute_payload df)).
    assert (Hsorted : Forall midnight (sort_values df)).
    { apply Forall_forall. intros r Hr.
      apply (proj1 (Forall_forall _ _) Hmid).
      apply (Permutation_in r (sort_values_perm df) Hr). }
    rewrite (filter_ext_in (on_day a day) (same_key a (pd_to_datetime day))
               (sort_values df)).
    + rewrite (filter_ext_in (on_day a day) (same_key a (pd_to_datetime day)) df).
      * change (map payload (with_key a (pd_to_datetime day) (sort_values df))
                = map payload (with_key a (pd_to_datetime day) df)).
        now rewrite sort_values_with_key.
      * intros r Hr. apply on_day_same_key.
        exact (proj1 (Forall_forall _ _) Hmid r Hr).
    + intros r Hr. apply on_day_same_key.
      exact (proj1 (Forall_forall _ _) Hsorted r Hr).
  - rename H0 into Hsplit. rename H1 into Hacct.
    assert (Hs : StronglySorted key_le (l1 ++ r1 :: l2 ++ r2 :: l3)).
    { rewrite <- Hsplit. apply canonical_strongly, recompute_canonical. }
    apply strongly_sorted_tail in Hs.
    apply StronglySorted_inv in Hs as [_ Hx].
    apply key_le_same_account; [|exact Hacct].
    apply (proj1 (Forall_forall _ _) Hx). apply in_or_app. right. now left.
Qed.

Lemma recompute_is_stable_witness :
  Forall midnight (map coerce sample_file ++
                   [new_row sample_loaded (jan2024 1) "Gift" "Cash" Credit (float_of_Z 50)])
  /\ map Description
       (filter (on_day "Cash" (jan2024 1))
          (map coerce sample_file ++
           [new_row sample_loaded (jan2024 1) "Gift" "Cash" Credit (float_of_Z 50)]))
     = ["Open"; "Gift"]%string
  /\ map payload
       (filter (on_day "Cash" (jan2024 1))
          (recompute
             (map coerce sample_file ++
              [new_row sample_loaded (jan2024 1) "Gift" "Cash" Credit (float_of_Z 50)])))
     = [(pd_to_datetime (jan2024 1), "Open", "Cash", float_of_Z 100);
        (pd_to_datetime (jan2024 1), "Gift", "Cash", float_of_Z 50)]%string.
Proof.
  assert (Hmid : Forall midnight
                   (map coerce sample_file ++
                    [new_row sample_loaded (jan2024 1) "Gift" "Cash" Credit
                       (float_of_Z 50)])).
  { unfold sample_file. cbn [map app].
    repeat (apply Forall_cons;
            [solve [ right; eexists; reflexivity | left; reflexivity ]|]).
    apply Forall_nil. }
  split; [exact Hmid|]. split; [vm_compute; reflexivity|].
  rewrite (proj1 (proj2 (proj2 (proj2 (proj2 (proj2
             (recompute_is_stable "Cash" (pd_to_datetime (jan2024 1))))))))
             (jan2024 1) _ Hmid).
  vm_compute. reflexivity.
Defined.

(** C8 (idempotence).  Running the recompute pass on its own output gives the
    same frame again, cell for cell. *)
Theorem recompute_idempotent {A} `{AmountOps A} (df : frame A) :
  recompute (recompute df) = recompute df.
Proof.
  rewrite (recompute_unfold (recompute df)).
  rewrite (sort_values_id _ (recompute_canonical df)).
  rewrite recompute_unfold.
  rewrite assign_SNo_with_cumsum, assign_SNo_again.
  apply with_cumsum_again.
Qed.

Lemma chosen_In {A} (to_delete : list Z) (r : row A) :
  In (SNo r) to_delete <-> chosen to_delete r = true.
Proof.
  unfold chosen. destruct (in_dec Z.eq_dec (SNo r) to_delete); split;
    intros; try reflexivity; try assumption; try contradiction; discriminate.
Qed.

(** C9 (deleteMany).  On a frame the script holds: with nothing selected the
    frame is returned as it is, together with the "no rows selected" warning;
    with a non-empty selection the result is the success notice, every row
    whose serial is among the selected ones is gone (the result is as much
    shorter as there were such rows) and the rows left are exactly those whose
    serial is not a member of the selection, in their previous order; serials
    that match no row can be added to a selection without changing the
    result; and a selection that matches no row at all leaves the frame as it
    is, with the success notice and no error. *)
Theorem delete_selected_spec {A} `{AmountOps A} (df : frame A) :
  reachable df ->
  delete_selected [] df = (df, NoRowsSelected)
  /\ (forall i ids,
        snd (delete_selected (i :: ids) df) = Deleted (i :: ids)
        /\ map payload (fst (delete_selected (i :: ids) df))
           = map payload (filter (fun r => negb (chosen (i :: ids) r)) df)
        /\ (List.length (fst (delete_selected (i :: ids) df))
            + List.length (filter (chosen (i :: ids)) df)
            = List.length df)%nat
        /\ (forall r, In r df -> In (SNo r) (i :: ids) ->
            ~ In (SNo r) (map SNo (filter (fun r => negb (chosen (i :: ids) r)) df))))
  /\ (forall i ids unknown,
        (forall r, In r df -> ~ In (SNo r) unknown) ->
        fst (delete_selected (i :: ids ++ unknown) df)
        = fst (delete_selected (i :: ids) df))
  /\ (forall i ids,
        (forall r, In r df -> ~ In (SNo r) (i :: ids)) ->
        delete_selected (i :: ids) df = (df, Deleted (i :: ids))).
Proof.
  intros Hr. split; [reflexivity|]. split; [|split].
  - intros i ids.
    assert (Hsel : forall r : row A,
               negb (isin Z.eqb (SNo r) (i :: ids)) = negb (chosen (i :: ids) r)).
    { intros r. f_equal. apply eq_true_iff_eq. rewrite isin_In.
      apply chosen_In. }
    split; [reflexivity|]. split; [|split].
    + unfold delete_selected. cbn [fst]. rewrite loc_map, recompute_payload.
      rewrite (filter_ext _ _ Hsel).
      f_equal. apply sort_values_id, filter_canonical.
      destruct (reachable_recompute df Hr) as [df0 ->]. apply recompute_canonical.
    + unfold delete_selected. cbn [fst]. rewrite loc_map, recompute_length.
      rewrite (filter_ext _ _ Hsel). rewrite Nat.add_comm.
      apply filter_length.
    + intros r Hin Hsno Hleft. apply in_map_iff in Hleft.
      destruct Hleft as [r' [Hs Hr']]. apply filter_In in Hr'.
      destruct Hr' as [_ Hneg]. apply negb_true_iff in Hneg.
      rewrite <- Hs in Hsno. apply chosen_In in Hsno. congruence.
  - intros i ids unknown Hnone. unfold delete_selected. cbn [app fst].
    rewrite !loc_map. f_equal. apply filter_ext_in. intros r Hin. f_equal.
    apply eq_true_iff_eq. rewrite !isin_In. change (i :: ids ++ unknown)
      with ((i :: ids) ++ unknown). rewrite in_app_iff.
    split; [intros [Hi|Hu]; [exact Hi | now destruct (Hnone r Hin)] | now left].
  - intros i ids Hnone. unfold delete_selected. rewrite loc_map.
    rewrite filter_all.
    + now rewrite (reachable_fixed df Hr).
    + intros r Hin. apply negb_true_iff.
      destruct (isin Z.eqb (SNo r) (i :: ids)) eqn:E; [|reflexivity].
      apply isin_In in E. now destruct (Hnone r Hin).
Qed.

Lemma delete_selected_spec_witness :
  reachable sample_added
  /\ map SNo sample_added = [1; 2; 3; 4; 5]
  /\ snd (delete_selected [1; 42; 3] sample_added) = Deleted [1; 42; 3]
  /\ map payload (fst (delete_selected [1; 42; 3] sample_added))
     = map payload (filter (fun r => negb (chosen [1; 42; 3] r)) sample_added)
  /\ map payload (filter (fun r => negb (chosen [1; 42; 3] r)) sample_added)
     = [nth 1 (map payload sample_added) (None, EmptyString, EmptyString, azero);
        nth 3 (map payload sample_added) (None, EmptyString, EmptyString, azero);
        nth 4 (map payload sample_added) (None, EmptyString, EmptyString, azero)]
  /\ List.length (fst (delete_selected [1; 42; 3] sample_added)) = 3%nat.
Proof.
  assert (Hr : reachable sample_added).
  { unfold sample_added, sample_loaded. apply reach_add, reach_load. }
  split; [exact Hr|]. split; [vm_compute; reflexivity|].
  destruct (proj1 (proj2 (delete_selected_spec sample_added Hr)) 1 [42; 3])
    as [Hn [Hp _]].
  split; [exact Hn|]. split; [exact Hp|].
  split; vm_compute; reflexivity.
Defined.

(** ** The report *)

Lemma string_lt_irrefl (s : string) : ~ string_lt s s.
Proof. unfold string_lt. now rewrite string_compare_refl. Qed.

Lemma string_gt_lt (s1 s2 : string) : String.compare s1 s2 = Gt -> string_lt s2 s1.
Proof. unfold string_lt. intros E. rewrite String.compare_antisym, E. reflexivity. Qed.

Section Series.
Context {A : Type}.
Implicit Types (s : list (string * A)) (k a : string) (v w : A).

Lemma last_put_keys k v s a :
  In a (map fst (last_put k v s)) <-> a = k \/ In a (map fst s).
Proof.
  induction s as [|[k' v'] rest IH]; simpl.
  - intuition.
  - destruct (String.compare k k') eqn:E; simpl.
    + apply String.compare_eq_iff in E. subst k'. intuition.
    + intuition.
    + rewrite IH. intuition.
Qed.

Lemma last_put_sorted k v s :
  StronglySorted string_lt (map fst s) ->
  StronglySorted string_lt (map fst (last_put k v s)).
Proof.
  induction s as [|[k' v'] rest IH]; simpl; intros Hs.
  - repeat constructor.
  - apply StronglySorted_inv in Hs as [Hrest Hall].
    destruct (String.compare k k') eqn:E; simpl.
    + apply String.compare_eq_iff in E. subst k'. now constructor.
    + constructor; [now constructor|].
      constructor; [exact E|].
      eapply Forall_impl; [|exact Hall].
      intros x Hx. exact (string_compare_lt_trans _ _ _ E Hx).
    + constructor; [now apply IH|].
      apply Forall_forall. intros x Hx. apply last_put_keys in Hx as [->|Hx].
      * now apply string_gt_lt.
      * now apply (proj1 (Forall_forall _ _) Hall).
Qed.

(** After the update the series holds the new value for [k] and the old
    values for every other key. *)
Lemma last_put_entries k v s a w :
  StronglySorted string_lt (map fst s) ->
  In (a, w) (last_put k v s) ->
  (a = k /\ w = v) \/ (a <> k /\ In (a, w) s).
Proof.
  induction s as [|[k' v'] rest IH]; simpl; intros Hs Hin.
  - destruct Hin as [[= <- <-]|[]]. now left.
  - apply StronglySorted_inv in Hs as [Hrest Hall].
    assert (Hfresh : forall x, In (a, x) rest -> string_lt k' a).
    { intros x Hx. apply (proj1 (Forall_forall _ _) Hall).
      change a with (fst (a, x)). now apply in_map. }
    destruct (String.compare k k') eqn:E; simpl in Hin.
    + apply String.compare_eq_iff in E. subst k'.
      destruct Hin as [[= <- <-]|Hin]; [now left|]. right. split; [|now right].
      intros ->. exact (string_lt_irrefl _ (Hfresh _ Hin)).
    + destruct Hin as [[= <- <-]|[[= <- <-]|Hin]]; [now left| |].
      * right. split; [|now left]. intros ->. exact (string_lt_irrefl _ E).
      * right. split; [|now right]. intros ->.
        exact (string_lt_irrefl _ (string_compare_lt_trans _ _ _ E (Hfresh _ Hin))).
    + destruct Hin as [[= <- <-]|Hin].
      * right. split; [|now left]. intros ->.
        exact (string_lt_irrefl _ (string_gt_lt _ _ E)).
      * destruct (IH Hrest Hin) as [?|[? ?]]; [now left|]. right. split; [assumption|now right].
Qed.

End Series.

Section Aggregate.
Context {A : Type} `{AmountOps A}.

Lemma bal_series_snoc (rows : frame A) (r : row A) :
  bal_series (rows ++ [r]) = last_put (Account r) (Balance r) (bal_series rows).
Proof. unfold bal_series. now rewrite fold_left_app. Qed.

Lemma last_balance_snoc_same (rows : frame A) (r : row A) :
  last_balance (Account r) (rows ++ [r]) = Balance r.
Proof.
  unfold last_balance, of_account. rewrite filter_app. simpl.
  rewrite String.eqb_refl, map_app. simpl. apply last_last.
Qed.

Lemma last_balance_snoc_other (rows : frame A) (r : row A) a :
  a <> Account r -> last_balance a (rows ++ [r]) = last_balance a rows.
Proof.
  intros Ha. unfold last_balance, of_account. rewrite filter_app. simpl.
  assert (String.eqb (Account r) a = false) as -> by (apply String.eqb_neq; congruence).
  now rewrite app_nil_r.
Qed.

(** What [groupby("Account")["Balance"].last()] holds: the accounts of the
    rows, sorted, each with the balance of its last row. *)
Lemma bal_series_spec (rows : frame A) :
  accounts_present rows (map fst (bal_series rows))
  /\ (forall a w, In (a, w) (bal_series rows) -> w = last_balance a rows).
Proof.
  induction rows as [|r rows IH] using rev_ind.
  - split; [split|]; simpl; [constructor | tauto | tauto].
  - destruct IH as [[Hsorted Hkeys] Hvals]. rewrite bal_series_snoc.
    split; [split|].
    + now apply last_put_sorted.
    + intros a. rewrite last_put_keys, Hkeys, map_app, in_app_iff. simpl. intuition.
    + intros a w Hin.
      destruct (last_put_entries _ _ _ _ _ Hsorted Hin) as [[-> ->]|[Hne Hold]].
      * symmetry. apply last_balance_snoc_same.
      * rewrite (last_balance_snoc_other rows r a Hne). now apply Hvals.
Qed.

End Aggregate.

Lemma aggregate_sums {A} `{AmountOps A} (rows : frame A) :
  totalCredit (aggregate rows)
  = asum (map Amount (filter (fun r => altb azero (Amount r)) rows))
  /\ totalDebit (aggregate rows)
     = asum (map (fun r => aabs (Amount r)) (filter (fun r => altb (Amount r) azero) rows))
  /\ exists accts,
       accounts_present rows accts
       /\ totalBalance (aggregate rows) = asum (map (fun a => last_balance a rows) accts).
Proof.
  split; [|split].
  - simpl. unfold total_credit. now rewrite loc_map.
  - simpl. unfold total_debit. now rewrite loc_map, map_map.
  - destruct (bal_series_spec rows) as [Hpresent Hvals].
    exists (map fst (bal_series rows)). split; [exact Hpresent|].
    simpl. unfold total_balance.
    assert (map snd (bal_series rows)
            = map (fun a => last_balance a rows) (map fst (bal_series rows))) as E.
    { rewrite map_map. apply map_ext_in. intros [a w] Hin. simpl. now apply Hvals. }
    destruct (bal_series rows) as [|p s]; [symmetry; apply asum_nil|].
    now rewrite E.
Qed.

Lemma int64_totals (rows : frame Z) :
  totalCredit (aggregate rows)
  = wrap64 (zsum (filter (fun x => 0 <? x) (map Amount rows)))
  /\ totalDebit (aggregate rows)
     = wrap64 (zsum (map Z.abs (filter (fun x => x <? 0) (map Amount rows)))).
Proof.
  destruct (aggregate_sums rows) as [Hc [Hd _]]. split.
  - rewrite Hc, int64_asum. f_equal. f_equal.
    clear. induction rows as [|r rows IH]; [reflexivity|].
    cbn [map filter altb azero int64] in *.
    destruct (0 <? Amount r); cbn [map]; now rewrite IH.
  - rewrite Hd, int64_asum.
    cbn [aabs int64]. rewrite (zsum_wrap_map (fun r => Z.abs (Amount r))).
    f_equal. f_equal.
    clear. induction rows as [|r rows IH]; [reflexivity|].
    cbn [map filter altb azero int64] in *.
    destruct (Amount r <? 0); cbn [map]; now rewrite IH.
Qed.

Lemma float_neg_zero_add (x : float) : PrimFloat.add PrimFloat.neg_zero x = x.
Proof.
  apply Prim2SF_inj. rewrite add_spec.
  change (Prim2SF PrimFloat.neg_zero) with (S754_zero true).
  destruct (Prim2SF x) as [[|]| [|] | |s m e]; reflexivity.
Qed.



Lemma in_reportb_spec {A} start_pie end_pie sel_accts (r : row A) :
  in_reportb start_pie end_pie sel_accts r = true <-> in_report start_pie end_pie sel_accts r.
Proof.
  unfold in_reportb, in_report. rewrite andb_true_iff, existsb_exists. split.
  - intros [Hd [a [Ha E]]]. apply String.eqb_eq in E. subst a. split; [|exact Ha].
    destruct (dt_date (Date r)) as [day|]; [|discriminate].
    exists day. apply andb_true_iff in Hd as [H1 H2]. apply Z.leb_le in H1, H2. now split.
  - intros [[day [-> [H1 H2]]] Ha]. split.
    + apply andb_true_iff. split; now apply Z.leb_le.
    + exists (Account r). split; [exact Ha | apply String.eqb_refl].
Qed.

Lemma mask_in_reportb {A} start_pie end_pie sel_accts (df : frame A) :
  mask start_pie end_pie sel_accts df = map (in_reportb start_pie end_pie sel_accts) df.
Proof.
  unfold mask. apply map_ext. intros r. unfold in_reportb, date_ge, date_le, isin.
  destruct (dt_date (Date r)); reflexivity.
Qed.

(** C6 (filter).  The report rows are exactly the subsequence of the frame's
    rows whose calendar day lies in [[start_pie, end_pie]], both ends
    included, and whose account is selected; with the start after the end,
    or with no account selected, there are none. *)
Theorem df_pie_spec {A} (start_pie end_pie : Z) (sel_accts : list string) (df : frame A) :
  (forall r : row A, in_reportb start_pie end_pie sel_accts r = true
                     <-> in_report start_pie end_pie sel_accts r)
  /\ df_pie start_pie end_pie sel_accts df
     = filter (in_reportb start_pie end_pie sel_accts) df
  /\ (forall r, In r (df_pie start_pie end_pie sel_accts df)
                <-> In r df /\ in_report start_pie end_pie sel_accts r)
  /\ (end_pie < start_pie -> df_pie start_pie end_pie sel_accts df = [])
  /\ df_pie start_pie end_pie [] df = [].
Proof.
  assert (E : forall accts, df_pie start_pie end_pie accts df
                            = filter (in_reportb start_pie end_pie accts) df).
  { intros accts. unfold df_pie. now rewrite mask_in_reportb, loc_map. }
  split; [intros r; apply in_reportb_spec|].
  split; [apply E|].
  split; [|split].
  - intros r. rewrite E, filter_In, in_reportb_spec. reflexivity.
  - intros Hlt. rewrite E. clear E.
    induction df as [|r rest IH]; simpl; [reflexivity|].
    assert (in_reportb start_pie end_pie sel_accts r = false) as ->; [|exact IH].
    unfold in_reportb. destruct (dt_date (Date r)) as [day|]; [|reflexivity].
    destruct (start_pie <=? day) eqn:E1; [|reflexivity].
    destruct (day <=? end_pie) eqn:E2; [|reflexivity].
    apply Z.leb_le in E1, E2. lia.
  - rewrite E. clear E. induction df as [|r rest IH]; simpl; [reflexivity|].
    unfold in_reportb at 1. simpl. now rewrite andb_false_r.
Qed.

Lemma df_pie_spec_witness :
  df_pie (jan2024 3) (jan2024 1) ["Cash"; "Savings"]%string sample_ledger = []
  /\ map SNo (df_pie (jan2024 1) (jan2024 2) ["Cash"; "Savings"]%string sample_ledger)
     = [1; 2].
Proof.
  split.
  - refine (proj1 (proj2 (proj2 (proj2
      (df_pie_spec (jan2024 3) (jan2024 1) ["Cash"; "Savings"]%string sample_ledger)))) _).
    reflexivity.
  - rewrite (proj1 (proj2 (df_pie_spec (jan2024 1) (jan2024 2)
                             ["Cash"; "Savings"]%string sample_ledger))).
    vm_compute. reflexivity.
Defined.

Lemma of_account_last {A} (acct : string) (rows1 rows2 : frame A) (r : row A) :
  Account r = acct ->
  (forall r', In r' rows2 -> Account r' <> acct) ->
  of_account acct (rows1 ++ r :: rows2) = of_account acct rows1 ++ [r].
Proof.
  intros Hacct Hnone. unfold of_account. rewrite filter_app. cbn [filter].
  rewrite Hacct, String.eqb_refl. f_equal. f_equal.
  apply filter_none. intros r' Hin. apply String.eqb_neq. now apply Hnone.
Qed.



(** C3 (update and blank descriptions).  The add handler rejects a
    description that strips to the empty string and leaves the frame alone;
    the update handler has no such test: on a one-row ledger, updating row 1
    with the description of three spaces stores the three spaces and reports
    success.  In general the update handler never answers with the
    description error. *)
Theorem update_keeps_blank_description :
  let df := fst (do_add (jan2024 1) "Open" "Cash" Credit (float_of_Z 100) (load None)) in
  falsy (strip "   ") = true
  /\ do_add (jan2024 1) "   " "Cash" Credit (float_of_Z 100) df = (df, DescriptionRequired)
  /\ do_mod 1 (jan2024 1) "   " "Cash" Credit (float_of_Z 100) df
     = ([mkRow 1 (pd_to_datetime (jan2024 1)) "   " "Cash" (float_of_Z 100) (float_of_Z 100)],
        Updated 1)
  /\ (forall mod_sno nd ndesc nacct nt namt (df' : frame float),
        snd (do_mod mod_sno nd ndesc nacct nt namt df') = Updated mod_sno).
Proof.
  cbv zeta. split; [reflexivity|]. split; [vm_compute; reflexivity|].
  split; [vm_compute; reflexivity|]. intros. reflexivity.
Qed.

(** ** Sums in float64 *)

Lemma add_all_reachable {A} `{AmountOps A} (entries : list (entry A)) (df : frame A) :
  reachable df -> reachable (add_all entries df).
Proof.
  unfold add_all. revert df.
  induction entries as [|e rest IH]; intros df Hr; simpl; [exact Hr|].
  apply IH. unfold add_entry. now apply reach_add.
Qed.

(** *** Insertions into one account on one day *)

Section OneAccount.
Context {A : Type} `{AmountOps A}.

Lemma group_cumsum_payload accum (df df' : frame A) :
  map payload df = map payload df' -> group_cumsum accum df = group_cumsum accum df'.
Proof.
  revert accum df'.
  induction df as [|r rest IH]; intros accum [|r' rest'] E; try discriminate; [reflexivity|].
  cbn [map] in E. apply cons_eq_inv in E as [Er Erest]. simpl.
  assert (Account r = Account r' /\ Amount r = Amount r') as [-> ->]
    by (unfold payload in Er; now inversion Er).
  f_equal. now apply IH.
Qed.

Lemma with_cumsum_Balance accum (df : frame A) :
  map Balance (with_cumsum accum df) = group_cumsum accum df.
Proof.
  unfold with_cumsum. revert accum.
  induction df as [|r rest IH]; intros accum; simpl; [reflexivity|].
  now rewrite IH.
Qed.

Lemma recompute_Balance (df : frame A) :
  map Balance (recompute df) = group_cumsum accum_init (recompute df).
Proof.
  rewrite recompute_unfold at 1. rewrite with_cumsum_Balance.
  apply group_cumsum_payload.
  now rewrite recompute_unfold, with_cumsum_payload.
Qed.

End OneAccount.




(** ** The scenarios of the specification, evaluated *)

Example scenario_1 :
  fst (do_add (jan2024 1) "Open" "Cash" Credit (float_of_Z 100) (load None))
  = [mkRow 1 (pd_to_datetime (jan2024 1)) "Open" "Cash" (float_of_Z 100) (float_of_Z 100)].
Proof. vm_compute. reflexivity. Qed.

Example scenario_2 :
  map Balance
    (add_all [mkEntry (jan2024 1) "Open" "Cash" Credit (float_of_Z 100);
              mkEntry (jan2024 2) "Pay" "Cash" Debit (float_of_Z 40)] (load None))
  = [float_of_Z 100; float_of_Z 60].
Proof. vm_compute. reflexivity. Qed.

Example scenario_3 :
  map (fun r => (SNo r, Description r, Balance r))
    (add_all [mkEntry (jan2024 1) "Open" "Cash" Credit (float_of_Z 100);
              mkEntry (jan2024 2) "Pay" "Cash" Debit (float_of_Z 40);
              mkEntry (jan2024 1) "Gift" "Cash" Credit (float_of_Z 50)] (load None))
  = [(1, "Open", float_of_Z 100); (2, "Gift", float_of_Z 150); (3, "Pay", float_of_Z 110)]%string.
Proof. vm_compute. reflexivity. Qed.

Example scenario_5 :
  map (fun r => (SNo r, Account r, Balance r)) sample_ledger
  = [(1, "Cash", float_of_Z 100); (2, "Cash", float_of_Z 60); (3, "Cash", float_of_Z 60);
     (4, "Savings", PrimFloat.opp (float_of_Z 7))]%string.
Proof. vm_compute. reflexivity. Qed.

(** ** Further properties of the add handler and of the pass *)

(** *** Stripping *)

Lemma among_In (l : list string) (w : string) : among l w = true -> In w l.
Proof.
  unfold among. rewrite existsb_exists. intros [y [Hy E]].
  apply String.eqb_eq in E. now subst.
Qed.

Lemma whitespace_lstrip (w s : string) : In w whitespace -> lstrip (w ++ s) = lstrip s.
Proof.
  intros Hin. unfold whitespace, whitespace1, whitespace2, whitespace3 in Hin.
  cbn [map app In] in Hin.
  repeat (destruct Hin as [<-|Hin]; [reflexivity|]).
  contradiction.
Qed.

Lemma blank_lstrip (s : string) : blank s -> lstrip s = EmptyString.
Proof.
  induction 1 as [|w s Hw _ IH]; [reflexivity|].
  now rewrite whitespace_lstrip.
Qed.

Lemma lstrip_blank_upto (n : nat) (s : string) :
  (String.length s <= n)%nat -> lstrip s = EmptyString -> blank s.
Proof.
  revert s. induction n as [|n IH]; intros s Hlen Hs.
  - destruct s; [constructor | simpl in Hlen; lia].
  - destruct s as [|c1 s1]; [constructor|].
    cbn [lstrip] in Hs. cbn [String.length] in Hlen.
    destruct (isspace c1) eqn:E1.
    { apply (blank_cons (String c1 EmptyString) s1).
      - unfold whitespace. apply in_or_app. left. now apply among_In.
      - apply IH; [lia | exact Hs]. }
    destruct s1 as [|c2 s2]; [discriminate|].
    cbn [String.length] in Hlen.
    destruct (isspace2 c1 c2) eqn:E2.
    { apply (blank_cons (String c1 (String c2 EmptyString)) s2).
      - unfold whitespace. apply in_or_app. right. apply in_or_app. left.
        now apply among_In.
      - apply IH; [lia | exact Hs]. }
    destruct s2 as [|c3 s3]; [discriminate|].
    cbn [String.length] in Hlen.
    destruct (isspace3 c1 c2 c3) eqn:E3; [|discriminate].
    apply (blank_cons (String c1 (String c2 (String c3 EmptyString))) s3).
    + unfold whitespace. apply in_or_app. right. apply in_or_app. right.
      now apply among_In.
    + apply IH; [lia | exact Hs].
Qed.

Lemma lstrip_idem_upto (n : nat) (s : string) :
  (String.length s <= n)%nat -> lstrip (lstrip s) = lstrip s.
Proof.
  revert s. induction n as [|n IH]; intros s Hlen.
  - destruct s; [reflexivity | simpl in Hlen; lia].
  - destruct s as [|c1 s1]; [reflexivity|].
    cbn [String.length] in Hlen.
    assert (Hs1 : lstrip (lstrip s1) = lstrip s1) by (apply IH; lia).
    destruct (isspace c1) eqn:E1.
    { cbn [lstrip]. now rewrite E1. }
    destruct s1 as [|c2 s2].
    { assert (E : lstrip (String c1 EmptyString) = String c1 EmptyString)
        by (cbn [lstrip]; now rewrite E1).
      now rewrite !E. }
    cbn [String.length] in Hlen.
    destruct (isspace2 c1 c2) eqn:E2.
    { assert (E : lstrip (String c1 (String c2 s2)) = lstrip s2)
        by (cbn [lstrip]; now rewrite E1, E2).
      rewrite !E. apply IH. lia. }
    destruct s2 as [|c3 s3].
    { assert (E : lstrip (String c1 (String c2 EmptyString))
                  = String c1 (String c2 EmptyString))
        by (cbn [lstrip]; now rewrite E1, E2).
      now rewrite !E. }
    cbn [String.length] in Hlen.
    destruct (isspace3 c1 c2 c3) eqn:E3.
    + assert (E : lstrip (String c1 (String c2 (String c3 s3))) = lstrip s3)
        by (cbn [lstrip]; now rewrite E1, E2, E3).
      rewrite !E. apply IH. lia.
    + assert (E : lstrip (String c1 (String c2 (String c3 s3)))
                  = String c1 (String c2 (String c3 s3)))
        by (cbn [lstrip]; now rewrite E1, E2, E3).
      now rewrite !E.
Qed.

Lemma falsy_empty (s : string) : falsy s = true <-> s = EmptyString.
Proof. destruct s; simpl; split; intros; congruence. Qed.

Lemma falsy_rstrip (s : string) : falsy (rstrip s) = falsy (lstrip s).
Proof.
  destruct s as [|c s]; [reflexivity|].
  cbn [rstrip]. now destruct (lstrip (String c s)).
Qed.

(** A description strips to the empty string exactly when it consists of
    whitespace characters only. *)
Lemma strip_falsy (s : string) : falsy (strip s) = true <-> blank s.
Proof.
  unfold strip. rewrite falsy_rstrip, (lstrip_idem_upto _ s (le_n _)), falsy_empty.
  split; [apply (lstrip_blank_upto _ s (le_n _)) | apply blank_lstrip].
Qed.

Lemma recompute_keeps_rows_aux {A} `{AmountOps A} (df : frame A) :
  Permutation (map payload (recompute df)) (map payload df).
Proof.
  rewrite recompute_payload. apply Permutation_map, sort_values_perm.
Qed.

(** The pass keeps the entered rows: none is lost, none is made up; and it
    keeps their number. *)
Theorem recompute_keeps_rows {A} `{AmountOps A} (df : frame A) :
  Permutation (map payload (recompute df)) (map payload df)
  /\ List.length (recompute df) = List.length df.
Proof.
  split; [|apply recompute_length].
  rewrite recompute_payload. apply Permutation_map, sort_values_perm.
Qed.

(** The add handler turns down exactly the descriptions made of whitespace
    characters only (none at all, spaces, tabs, line ends, no-break spaces
    and the other characters [str.isspace] holds for), and then returns the
    frame as it was; any other description is accepted, and the new frame
    holds the old rows and the entered one. *)
Theorem do_add_spec {A} `{AmountOps A}
    (d : Z) (desc acct : string) (t : ttype) (amt : A) (df : frame A) :
  (blank desc -> do_add d desc acct t amt df = (df, DescriptionRequired))
  /\ (~ blank desc ->
      do_add d desc acct t amt df
      = (recompute (df ++ [new_row df d desc acct t amt]), TransactionAdded)
      /\ Permutation
           (map payload (fst (do_add d desc acct t amt df)))
           ((pd_to_datetime d, desc, acct, signed t amt) :: map payload df)).
Proof.
  unfold do_add. split.
  - intros Hb. apply strip_falsy in Hb. now rewrite Hb.
  - intros Hb. destruct (falsy (strip desc)) eqn:E.
    + apply strip_falsy in E. contradiction.
    + split; [reflexivity|]. cbn [fst].
      rewrite recompute_keeps_rows_aux, map_app. simpl.
      symmetry. apply Permutation_cons_append.
Qed.

Lemma do_add_spec_witness :
  blank (utf8 [32; 194; 160; 9; 226; 128; 131]%N)
  /\ do_add (jan2024 1) (utf8 [32; 194; 160; 9; 226; 128; 131]%N) "Cash" Credit
            (float_of_Z 5) sample_loaded
     = (sample_loaded, DescriptionRequired)
  /\ ~ blank (utf8 [194; 160; 79; 112; 101; 110; 32]%N)
  /\ snd (do_add (jan2024 1) (utf8 [194; 160; 79; 112; 101; 110; 32]%N) "Cash" Credit
            (float_of_Z 5) sample_loaded)
     = TransactionAdded
  /\ strip (utf8 [194; 160; 79; 112; 101; 110; 32]%N) = "Open"%string.
Proof.
  assert (Hb : blank (utf8 [32; 194; 160; 9; 226; 128; 131]%N)).
  { apply strip_falsy. vm_compute. reflexivity. }
  assert (Hn : ~ blank (utf8 [194; 160; 79; 112; 101; 110; 32]%N)).
  { intros Hx. apply strip_falsy in Hx. vm_compute in Hx. discriminate Hx. }
  split; [exact Hb|].
  split.
  - exact (proj1 (do_add_spec (jan2024 1) _ "Cash" Credit (float_of_Z 5) sample_loaded) Hb).
  - split; [exact Hn|]. split; [|vm_compute; reflexivity].
    destruct (proj2 (do_add_spec (jan2024 1) (utf8 [194; 160; 79; 112; 101; 110; 32]%N)
                       "Cash" Credit (float_of_Z 5) sample_loaded) Hn) as [E _].
    now rewrite E.
Defined.

(** ** Where an inserted row lands, and taking it out again *)

Lemma rows_upto_none {A} (r x : row A) (rest : frame A) :
  Forall (key_le x) rest -> key_leb x r = false -> rows_upto r rest = [].
Proof.
  intros Hall Hx. apply filter_none. intros y Hy.
  destruct (key_leb y r) eqn:E; [|reflexivity].
  pose proof (proj1 (Forall_forall _ _) Hall y Hy) as Hxy.
  pose proof (key_le_trans x y r Hxy E) as Hxr. unfold key_le in Hxr. congruence.
Qed.

(** In a frame in canonical order the rows up to a key form a prefix. *)
Lemma canonical_partition {A} (r : row A) (df : frame A) :
  canonical_order df -> rows_upto r df ++ rows_past r df = df.
Proof.
  intros Hs. apply canonical_strongly in Hs.
  induction Hs as [|x rest Hs IH Hall]; [reflexivity|].
  unfold rows_upto, rows_past in *. simpl.
  destruct (key_leb x r) eqn:E; simpl.
  - now rewrite IH.
  - fold (rows_upto r rest) in *. rewrite (rows_upto_none r x rest Hall E) in *.
    simpl in *. now rewrite IH.
Qed.

Lemma sort_insert_front {A} (x : row A) (l : frame A) :
  Forall (key_le x) l -> sort_insert x l = x :: l.
Proof.
  intros Hall. destruct l as [|y rest]; [reflexivity|]. simpl.
  apply Forall_inv in Hall. unfold key_le in Hall. now rewrite Hall.
Qed.

(** Sorting a frame in canonical order with one row appended puts the row
    behind the rows that do not exceed it and in front of the others. *)
Lemma sort_values_snoc {A} (r : row A) (df : frame A) :
  canonical_order df ->
  sort_values (df ++ [r]) = rows_upto r df ++ r :: rows_past r df.
Proof.
  intros Hs. apply canonical_strongly in Hs.
  induction Hs as [|x rest Hs IH Hall]; [reflexivity|].
  cbn [app sort_values]. rewrite IH.
  pose proof (canonical_partition r rest (StronglySorted_Sorted Hs)) as Hpart.
  unfold rows_upto, rows_past in *. cbn [filter].
  destruct (key_leb x r) eqn:E; cbn [negb app].
  - apply sort_insert_front.
    apply Forall_app. split.
    + apply Forall_forall. intros y Hy. apply filter_In in Hy as [Hy _].
      exact (proj1 (Forall_forall _ _) Hall y Hy).
    + constructor; [exact E|].
      apply Forall_forall. intros y Hy. apply filter_In in Hy as [Hy _].
      exact (proj1 (Forall_forall _ _) Hall y Hy).
  - fold (rows_upto r rest) in *. rewrite (rows_upto_none r x rest Hall E) in *.
    cbn [app] in *. cbn [sort_insert]. rewrite E. f_equal.
    rewrite Hpart. now apply sort_insert_front.
Qed.

Lemma dense_nth {A} (F : frame A) (s n k : nat) (x : row A) :
  map SNo F = map Z.of_nat (seq s n) ->
  nth_error F k = Some x -> SNo x = Z.of_nat (s + k).
Proof.
  revert s n k. induction F as [|y rest IH]; intros s n k E Hk.
  - destruct k; discriminate.
  - destruct n as [|n]; [discriminate|]. cbn [map seq] in E.
    apply cons_eq_inv in E as [Ey Erest].
    destruct k as [|k]; simpl in Hk.
    + injection Hk as <-. rewrite Ey. f_equal. lia.
    + rewrite (IH _ _ _ Erest Hk). f_equal. lia.
Qed.

Lemma dense_above {A} (F : frame A) (s n : nat) (x : row A) :
  map SNo F = map Z.of_nat (seq s n) -> In x F -> Z.of_nat s <= SNo x.
Proof.
  intros E Hx. apply (in_map SNo) in Hx. rewrite E in Hx.
  apply in_map_iff in Hx as [j [<- Hj]]. apply in_seq in Hj. lia.
Qed.

(** In a frame numbered consecutively, dropping one serial drops the row at
    its position and nothing else. *)
Lemma dense_drop {A} (F : frame A) (s n k : nat) :
  map SNo F = map Z.of_nat (seq s n) ->
  filter (fun r => negb (isin Z.eqb (SNo r) [Z.of_nat (s + k)])) F
  = firstn k F ++ skipn (S k) F.
Proof.
  revert s n k. induction F as [|y rest IH]; intros s n k E.
  - now destruct k.
  - destruct n as [|n]; [discriminate|]. cbn [map seq] in E.
    apply cons_eq_inv in E as [Ey Erest]. cbn [filter isin existsb].
    destruct k as [|k].
    + rewrite Ey, Nat.add_0_r, Z.eqb_refl. cbn [orb negb firstn skipn app].
      apply filter_all. intros x Hx.
      pose proof (dense_above rest (S s) n x Erest Hx) as Hge.
      cbn beta. cbn [isin existsb]. rewrite orb_false_r. apply negb_true_iff, Z.eqb_neq. lia.
    + rewrite Ey. replace (Z.of_nat s =? Z.of_nat (s + S k)) with false
        by (symmetry; apply Z.eqb_neq; lia).
      cbn [orb negb firstn skipn app]. f_equal.
      replace (s + S k)%nat with (S s + k)%nat by lia.
      exact (IH (S s) n k Erest).
Qed.

Lemma drop_middle {T} (l1 l2 : list T) (x : T) :
  firstn (List.length l1) (l1 ++ x :: l2) ++ skipn (S (List.length l1)) (l1 ++ x :: l2)
  = l1 ++ l2.
Proof.
  induction l1 as [|y l1 IH]; [reflexivity|].
  cbn [List.length app firstn]. cbn [skipn] in *. cbn [app]. f_equal. exact IH.
Qed.

Section PayloadOnly.
Context {A : Type} `{AmountOps A}.

Lemma sort_insert_congr (r r' : row A) (l l' : frame A) :
  payload r = payload r' -> map payload l = map payload l' ->
  map payload (sort_insert r l) = map payload (sort_insert r' l').
Proof.
  intros Er. revert l'.
  induction l as [|x rest IH]; intros [|x' rest'] E; try discriminate.
  - simpl. now rewrite Er.
  - cbn [map] in E. apply cons_eq_inv in E as [Ex Erest]. cbn [sort_insert].
    rewrite (key_leb_payload r x r' x' Er Ex).
    destruct (key_leb r' x'); cbn [map].
    + now rewrite Er, Ex, Erest.
    + rewrite Ex. f_equal. now apply IH.
Qed.

Lemma sort_values_congr (l l' : frame A) :
  map payload l = map payload l' ->
  map payload (sort_values l) = map payload (sort_values l').
Proof.
  revert l'. induction l as [|x rest IH]; intros [|x' rest'] E; try discriminate;
    [reflexivity|].
  cbn [map] in E. apply cons_eq_inv in E as [Ex Erest]. cbn [sort_values].
  apply sort_insert_congr; [exact Ex | now apply IH].
Qed.

Lemma rebuild_congr accum (i : Z) (l l' : frame A) :
  map payload l = map payload l' ->
  with_cumsum accum (assign_SNo i l) = with_cumsum accum (assign_SNo i l').
Proof.
  unfold with_cumsum. revert accum i l'.
  induction l as [|x rest IH]; intros accum i [|x' rest'] E; try discriminate;
    [reflexivity|].
  cbn [map] in E. apply cons_eq_inv in E as [Ex Erest].
  assert (Date x = Date x' /\ Description x = Description x'
          /\ Account x = Account x' /\ Amount x = Amount x') as [E1 [E2 [E3 E4]]]
    by (unfold payload in Ex; now inversion Ex).
  simpl. unfold set_Balance, set_SNo. simpl. rewrite E1, E2, E3, E4.
  f_equal. now apply IH.
Qed.

(** The pass reads the four entered columns only. *)
Lemma recompute_congr (l l' : frame A) :
  map payload l = map payload l' -> recompute l = recompute l'.
Proof.
  intros E. rewrite !recompute_unfold. apply rebuild_congr. now apply sort_values_congr.
Qed.

Lemma do_add_payload d desc acct t amt (df : frame A) :
  reachable df -> falsy (strip desc) = false ->
  map payload (fst (do_add d desc acct t amt df))
  = map payload (rows_upto (new_row df d desc acct t amt) df)
    ++ payload (new_row df d desc acct t amt)
       :: map payload (rows_past (new_row df d desc acct t amt) df).
Proof.
  intros Hr Hdesc. unfold do_add. rewrite Hdesc. cbn [fst].
  rewrite recompute_payload, sort_values_snoc.
  - now rewrite map_app.
  - destruct (reachable_recompute df Hr) as [df0 ->]. apply recompute_canonical.
Qed.

End PayloadOnly.

(** An accepted entry lands behind the rows whose (account, date) does not
    exceed its own and in front of all others, which together are the old
    frame in its old order; the serial it gets is one more than the number
    of rows in front of it. *)
Theorem do_add_position {A} `{AmountOps A}
    (d : Z) (desc acct : string) (t : ttype) (amt : A) (df : frame A) :
  reachable df -> falsy (strip desc) = false ->
  let r := new_row df d desc acct t amt in
  let df' := fst (do_add d desc acct t amt df) in
  map payload df' = map payload (rows_upto r df) ++ payload r :: map payload (rows_past r df)
  /\ rows_upto r df ++ rows_past r df = df
  /\ exists r', nth_error df' (List.length (rows_upto r df)) = Some r'
                /\ payload r' = payload r
                /\ SNo r' = Z.of_nat (List.length (rows_upto r df)) + 1.
Proof.
  intros Hr Hdesc r df'.
  pose proof (do_add_payload d desc acct t amt df Hr Hdesc) as Hp.
  fold r in Hp. fold df' in Hp.
  assert (Hc : canonical_order df).
  { destruct (reachable_recompute df Hr) as [df0 ->]. apply recompute_canonical. }
  split; [exact Hp|]. split; [now apply canonical_partition|].
  assert (Hnth : nth_error (map payload df') (List.length (rows_upto r df))
                 = Some (payload r)).
  { rewrite Hp, nth_error_app2; rewrite length_map; [|lia].
    now rewrite Nat.sub_diag. }
  rewrite nth_error_map in Hnth.
  destruct (nth_error df' (List.length (rows_upto r df))) as [r'|] eqn:E; [|discriminate].
  exists r'. split; [reflexivity|]. split.
  { cbn [option_map] in Hnth.
    exact (f_equal (fun o => match o with Some p => p | None => payload r end) Hnth). }
  assert (Hd : ids_dense df').
  { unfold df', do_add. rewrite Hdesc. apply recompute_ids. }
  rewrite (dense_nth df' 1 _ _ r' Hd E). lia.
Qed.

Lemma do_add_position_witness :
  let r := new_row sample_loaded (jan2024 1) "Gift" "Cash" Credit (float_of_Z 50) in
  map payload sample_added
  = map payload (rows_upto r sample_loaded) ++ payload r
      :: map payload (rows_past r sample_loaded)
  /\ rows_upto r sample_loaded ++ rows_past r sample_loaded = sample_loaded
  /\ exists r', nth_error sample_added (List.length (rows_upto r sample_loaded)) = Some r'
                /\ payload r' = payload r
                /\ SNo r' = Z.of_nat (List.length (rows_upto r sample_loaded)) + 1.
Proof.
  apply (do_add_position (jan2024 1) "Gift" "Cash" Credit (float_of_Z 50) sample_loaded).
  - apply reach_load.
  - reflexivity.
Defined.

(** Insert and delete undo each other: deleting the serial that an accepted
    entry was given returns the frame that was there before the entry, cell
    for cell. *)
Theorem add_then_delete {A} `{AmountOps A}
    (d : Z) (desc acct : string) (t : ttype) (amt : A) (df : frame A) :
  reachable df -> falsy (strip desc) = false ->
  let r := new_row df d desc acct t amt in
  let serial := Z.of_nat (List.length (rows_upto r df)) + 1 in
  fst (delete_selected [serial] (fst (do_add d desc acct t amt df))) = df.
Proof.
  intros Hr Hdesc r serial.
  pose proof (do_add_payload d desc acct t amt df Hr Hdesc) as Hp. fold r in Hp.
  set (df' := fst (do_add d desc acct t amt df)) in *.
  assert (Hd : ids_dense df').
  { unfold df', do_add. rewrite Hdesc. apply recompute_ids. }
  assert (Hc : canonical_order df).
  { destruct (reachable_recompute df Hr) as [df0 ->]. apply recompute_canonical. }
  unfold delete_selected. cbn [fst]. rewrite loc_map.
  transitivity (recompute df); [|exact (reachable_fixed df Hr)].
  apply recompute_congr.
  unfold serial.
  replace (Z.of_nat (List.length (rows_upto r df)) + 1)
    with (Z.of_nat (1 + List.length (rows_upto r df))) by lia.
  rewrite (dense_drop df' 1 _ _ Hd).
  rewrite map_app, <- firstn_map, <- skipn_map, Hp.
  rewrite <- (length_map payload (rows_upto r df)).
  rewrite drop_middle, <- map_app.
  now rewrite canonical_partition.
Qed.

Lemma add_then_delete_witness :
  fst (delete_selected
         [Z.of_nat (List.length
                      (rows_upto (new_row sample_loaded (jan2024 1) "Gift" "Cash" Credit
                                          (float_of_Z 50)) sample_loaded)) + 1]
         sample_added)
  = sample_loaded.
Proof.
  apply (add_then_delete (jan2024 1) "Gift" "Cash" Credit (float_of_Z 50) sample_loaded).
  - apply reach_load.
  - reflexivity.
Defined.

(** ** Modifying a row *)

Lemma dense_NoDup {A} (df : frame A) : ids_dense df -> NoDup (map SNo df).
Proof.
  unfold ids_dense. intros ->.
  apply Finite.Injective_map_NoDup; [|apply seq_NoDup].
  intros x y. apply Nat2Z.inj.
Qed.

Lemma NoDup_map_eq {T U} (f : T -> U) (l : list T) (x y : T) :
  NoDup (map f l) -> In x l -> In y l -> f x = f y -> x = y.
Proof.
  induction l as [|z rest IH]; simpl; intros Hnd Hx Hy E; [contradiction|].
  apply NoDup_cons_iff in Hnd as [Hz Hrest].
  destruct Hx as [->|Hx], Hy as [->|Hy].
  - reflexivity.
  - exfalso. apply Hz. rewrite E. now apply in_map.
  - exfalso. apply Hz. rewrite <- E. now apply in_map.
  - now apply IH.
Qed.

Lemma assign_where_others {A} mod_sno date desc acct (amount : A) (df : frame A) :
  (forall r, In r df -> SNo r <> mod_sno) ->
  assign_where mod_sno date desc acct amount df = df.
Proof.
  intros Hne. unfold assign_where. rewrite <- (map_id df) at 2.
  apply map_ext_in. intros r Hr.
  apply Hne, Z.eqb_neq in Hr. now rewrite Hr.
Qed.

Lemma reachable_dense {A} `{AmountOps A} (df : frame A) : reachable df -> ids_dense df.
Proof. intros Hr. destruct (reachable_recompute df Hr) as [df0 ->]. apply recompute_ids. Qed.

(** On a float64 Amount column (a column the forms have written to, or one
    loaded as float64), an update replaces exactly one transaction: the frame
    held a single row with the chosen serial, and afterwards the entered rows
    are the new one together with all the others, each as it was; the number
    of rows stays.  (The integer column of a file of whole numbers is left
    aside: there pandas refuses to assign a fractional amount.) *)
Theorem do_mod_replaces_one
    (mod_sno new_date : Z) (new_desc new_acct : string) (new_type : ttype)
    (new_amt : float) (df : frame float) :
  reachable df -> selectable mod_sno df ->
  exists before old after,
    df = before ++ old :: after
    /\ SNo old = mod_sno
    /\ (forall r, In r (before ++ after) -> SNo r <> mod_sno)
    /\ Permutation
         (map payload (fst (do_mod mod_sno new_date new_desc new_acct new_type new_amt df)))
         ((pd_to_datetime new_date, new_desc, new_acct, signed new_type new_amt)
            :: map payload (before ++ after))
    /\ List.length (fst (do_mod mod_sno new_date new_desc new_acct new_type new_amt df))
       = List.length df.
Proof.
  intros Hr [Hin _].
  apply in_map_iff in Hin as [old [Hold Hin]].
  apply in_split in Hin as [before [after ->]].
  exists before, old, after.
  pose proof (dense_NoDup _ (reachable_dense _ Hr)) as Hnd.
  assert (Hothers : forall r, In r (before ++ after) -> SNo r <> mod_sno).
  { intros r Hr' E. rewrite map_app in Hnd. cbn [map] in Hnd.
    apply NoDup_remove_2 in Hnd. apply Hnd. rewrite <- map_app, Hold, <- E.
    now apply in_map. }
  split; [reflexivity|]. split; [exact Hold|]. split; [exact Hothers|].
  unfold do_mod. cbn [fst]. split.
  - rewrite recompute_payload, (Permutation_map payload (sort_values_perm _)).
    unfold assign_where. rewrite map_app. cbn [map]. rewrite Hold, Z.eqb_refl.
    fold (assign_where mod_sno (pd_to_datetime new_date) new_desc new_acct
            (signed new_type new_amt) before).
    fold (assign_where mod_sno (pd_to_datetime new_date) new_desc new_acct
            (signed new_type new_amt) after).
    rewrite !assign_where_others.
    + rewrite !map_app. cbn [map]. symmetry. apply Permutation_middle.
    + intros r Hr'. apply Hothers, in_or_app. now right.
    + intros r Hr'. apply Hothers, in_or_app. now left.
  - rewrite recompute_length. unfold assign_where. apply length_map.
Qed.

Lemma do_mod_replaces_one_witness :
  exists before old after,
    sample_deleted = before ++ old :: after
    /\ SNo old = 2
    /\ (forall r, In r (before ++ after) -> SNo r <> 2)
    /\ Permutation
         (map payload sample_ledger)
         ((pd_to_datetime (jan2024 3), "Moved"%string, "Savings"%string,
           signed Debit (float_of_Z 7))
            :: map payload (before ++ after))
    /\ List.length sample_ledger = List.length sample_deleted.
Proof.
  unfold sample_ledger.
  apply (do_mod_replaces_one 2 (jan2024 3) "Moved" "Savings" Debit (float_of_Z 7)
           sample_deleted).
  - unfold sample_deleted, sample_added, sample_loaded.
    apply reach_delete; [apply reach_add, reach_load | vm_compute; discriminate].
  - split; [vm_compute; tauto | lia].
Defined.

Lemma list_index_nth (x : string) (l : list string) :
  In x l -> exists i, list_index x l = Some i /\ nth_error l i = Some x.
Proof.
  induction l as [|y rest IH]; simpl; intros Hin; [contradiction|].
  destruct (String.eqb y x) eqn:E.
  - apply String.eqb_eq in E. subst y. now exists 0%nat.
  - destruct Hin as [->|Hin]; [now rewrite String.eqb_refl in E|].
    destruct (IH Hin) as [i [Hi Hn]]. exists (S i). rewrite Hi. now split.
Qed.

Section Untouched.
Context {A : Type} `{AmountOps A}.

(** If type and magnitude of the form give back the stored amount, pressing
    Update on the untouched form of a row dated at midnight and booked on a
    listed account returns the frame as it was. *)
Lemma update_untouched_same (accounts : list string) (mod_sno day : Z)
    (r : row A) (df : frame A) :
  reachable df ->
  selected_row mod_sno df = Some r ->
  Date r = pd_to_datetime day ->
  In (Account r) accounts ->
  signed (if altb azero (Amount r) then Credit else Debit) (aabs (Amount r)) = Amount r ->
  update_untouched accounts mod_sno df = Some (df, Updated mod_sno).
Proof.
  intros Hr Hsel Hdate Hacct Hamt.
  assert (Hpos : (mod_sno =? 0) = false).
  { pose proof Hsel as Hf. apply find_some in Hf as [Hin Hm]. apply Z.eqb_eq in Hm.
    pose proof (dense_above df 1 _ r (reachable_dense df Hr) Hin). apply Z.eqb_neq. lia. }
  unfold update_untouched, form_defaults. rewrite Hpos, Hsel, Hdate, dt_date_midnight.
  destruct (list_index_nth _ _ Hacct) as [i [-> ->]].
  unfold submit_form, do_mod. cbn [f_date f_desc f_acct f_type f_amt].
  rewrite Hamt. do 2 f_equal.
  transitivity (recompute df); [|exact (reachable_fixed df Hr)].
  apply recompute_congr. unfold assign_where. rewrite map_map.
  apply map_ext_in. intros x Hx.
  destruct (SNo x =? mod_sno) eqn:E; [|reflexivity].
  apply Z.eqb_eq in E.
  apply find_some in Hsel as [Hin Hm]. apply Z.eqb_eq in Hm.
  assert (x = r) as ->.
  { apply (NoDup_map_eq SNo df); [apply dense_NoDup, reachable_dense, Hr | | | congruence];
      assumption. }
  unfold payload. simpl. now rewrite Hdate.
Qed.

End Untouched.

(** *** Sign and magnitude of a float64 amount *)

Lemma Prim2SF_zero : Prim2SF PrimFloat.zero = S754_zero false.
Proof. reflexivity. Qed.

Lemma float_sign_magnitude (a : float) :
  a <> PrimFloat.zero ->
  signed (if altb azero a then Credit else Debit) (aabs a) = a.
Proof.
  intros Hnz. apply Prim2SF_inj.
  assert (Hz : Prim2SF a <> S754_zero false).
  { intros E. apply Hnz, Prim2SF_inj. now rewrite Prim2SF_zero. }
  cbn [altb azero aabs float64 signed aneg].
  rewrite ltb_spec, Prim2SF_zero.
  destruct (Prim2SF a) as [s|s| |s m e] eqn:E.
  - destruct s; [|congruence]. cbn. now rewrite opp_spec, abs_spec, E.
  - destruct s; cbn.
    + now rewrite opp_spec, abs_spec, E.
    + now rewrite abs_spec, E.
  - cbn. now rewrite opp_spec, abs_spec, E.
  - destruct s; cbn.
    + now rewrite opp_spec, abs_spec, E.
    + now rewrite abs_spec, E.
Qed.

(** Type and magnitude as the modify form shows them give back every stored
    float64 amount except +0.0, which comes back as -0.0 (it is not greater
    than zero, so the form shows Debit). *)
Theorem form_amount_round_trip (a : float) :
  (a <> PrimFloat.zero ->
   signed (if altb azero a then Credit else Debit) (aabs a) = a)
  /\ (a = PrimFloat.zero ->
      signed (if altb azero a then Credit else Debit) (aabs a) = PrimFloat.neg_zero).
Proof.
  split.
  - apply float_sign_magnitude.
  - intros ->. reflexivity.
Qed.

(** The amount box has [min_value=0.0].  With such a value a Debit entry is
    never exported as credit and a Credit entry never as debit; neither
    counts towards the other pie total. *)
Theorem entry_type_decides_column (amt : float) :
  PrimFloat.leb PrimFloat.zero amt = true ->
  credit_of (signed Debit amt) = PrimFloat.zero
  /\ debit_of (signed Credit amt) = PrimFloat.zero
  /\ (forall n date desc acct bal,
        total_credit [mkRow n date desc acct (signed Debit amt) bal] = PrimFloat.zero
        /\ total_debit [mkRow n date desc acct (signed Credit amt) bal] = PrimFloat.zero).
Proof.
  intros Hpos.
  assert (Hd : altb azero (signed Debit amt) = false).
  { cbn [altb azero float64 signed aneg].
    rewrite ltb_spec, opp_spec, Prim2SF_zero.
    rewrite leb_spec, Prim2SF_zero in Hpos.
    destruct (Prim2SF amt) as [s|s| |s m e]; try destruct s; cbn in *; congruence. }
  assert (Hc : altb (signed Credit amt) azero = false).
  { cbn [altb azero float64 signed].
    rewrite ltb_spec, Prim2SF_zero.
    rewrite leb_spec, Prim2SF_zero in Hpos.
    destruct (Prim2SF amt) as [s|s| |s m e]; try destruct s; cbn in *; congruence. }
  split; [unfold credit_of; now rewrite Hd|].
  split; [unfold debit_of; now rewrite Hc|].
  intros n date desc acct bal. unfold total_credit, total_debit.
  cbn [map loc Amount]. now rewrite Hd, Hc.
Qed.

Lemma entry_type_decides_column_witness :
  credit_of (signed Debit (hundredths 1250)) = PrimFloat.zero
  /\ debit_of (signed Credit (hundredths 1250)) = PrimFloat.zero
  /\ (forall n date desc acct bal,
        total_credit [mkRow n date desc acct (signed Debit (hundredths 1250)) bal]
        = PrimFloat.zero
        /\ total_debit [mkRow n date desc acct (signed Credit (hundredths 1250)) bal]
           = PrimFloat.zero).
Proof.
  apply (entry_type_decides_column (hundredths 1250)). reflexivity.
Defined.

(** Pressing Update on the untouched form leaves the ledger as it is, cell
    for cell, when the chosen row is dated at midnight (as every row entered
    through a form is), its account is in the account list, and its amount
    is not +0.0. *)
Theorem update_untouched_keeps_frame
    (accounts : list string) (mod_sno day : Z) (r : row float) (df : frame float) :
  reachable df ->
  selected_row mod_sno df = Some r ->
  Date r = pd_to_datetime day ->
  In (Account r) accounts ->
  Amount r <> PrimFloat.zero ->
  update_untouched accounts mod_sno df = Some (df, Updated mod_sno).
Proof.
  intros Hr Hsel Hdate Hacct Hnz.
  apply (update_untouched_same accounts mod_sno day r df Hr Hsel Hdate Hacct).
  now apply float_sign_magnitude.
Qed.

Lemma update_untouched_keeps_frame_witness :
  update_untouched ["Cash"; "Bank"]%string 2 sample_added
  = Some (sample_added, Updated 2).
Proof.
  apply (update_untouched_keeps_frame ["Cash"; "Bank"]%string 2 (jan2024 1)
           (mkRow 2 (pd_to_datetime (jan2024 1)) "Open" "Cash"
                  (float_of_Z 100) (float_of_Z 100))).
  - unfold sample_added, sample_loaded. apply reach_add, reach_load.
  - vm_compute. reflexivity.
  - reflexivity.
  - simpl. now left.
  - intros E. apply (f_equal (fun x => PrimFloat.eqb x PrimFloat.zero)) in E.
    vm_compute in E. discriminate E.
Defined.

(** ** The default date range of the report *)

Lemma fold_min_le (l : list Z) (t : Z) :
  fold_left Z.min l t <= t /\ (forall x, In x l -> fold_left Z.min l t <= x).
Proof.
  revert t. induction l as [|y rest IH]; intros t; simpl.
  - split; [lia | intros x []].
  - destruct (IH (Z.min t y)) as [H1 H2]. split; [lia|].
    intros x [<-|Hx]; [lia | now apply H2].
Qed.

Lemma fold_max_ge (l : list Z) (t : Z) :
  t <= fold_left Z.max l t /\ (forall x, In x l -> x <= fold_left Z.max l t).
Proof.
  revert t. induction l as [|y rest IH]; intros t; simpl.
  - split; [lia | intros x []].
  - destruct (IH (Z.max t y)) as [H1 H2]. split; [lia|].
    intros x [<-|Hx]; [lia | now apply H2].
Qed.

Lemma series_min_le (l : list Z) (m x : Z) :
  series_min l = Some m -> In x l -> m <= x.
Proof.
  destruct l as [|t rest]; [discriminate|]. simpl. intros [= <-].
  destruct (fold_min_le rest t) as [H1 H2]. intros [<-|Hx]; [exact H1 | now apply H2].
Qed.

Lemma series_max_ge (l : list Z) (m x : Z) :
  series_max l = Some m -> In x l -> x <= m.
Proof.
  destruct l as [|t rest]; [discriminate|]. simpl. intros [= <-].
  destruct (fold_max_ge rest t) as [H1 H2]. intros [<-|Hx]; [exact H1 | now apply H2].
Qed.

Lemma valid_dates_In {A} (df : frame A) (r : row A) (t : Z) :
  In r df -> Date r = Some t -> In t (valid_dates df).
Proof.
  intros Hr Ht. unfold valid_dates. apply in_flat_map. exists r.
  split; [exact Hr|]. rewrite Ht. now left.
Qed.

Lemma day_mono (t1 t2 : Z) : t1 <= t2 -> t1 / ns_per_day <= t2 / ns_per_day.
Proof. intros Hle. apply Z.div_le_mono; [reflexivity | exact Hle]. Qed.

(** With the range the date widget starts from, the first and the last day
    of the Date column, the report leaves out no dated row: it shows exactly
    the rows that have a date and a selected account.  Rows without a date
    are never shown. *)
Theorem default_range_shows_all {A} (sel_accts : list string) (df : frame A) (lo hi : Z) :
  min_date df = Some lo -> max_date df = Some hi ->
  lo <= hi
  /\ df_pie lo hi sel_accts df = filter (dated_and_selected sel_accts) df
  /\ (forall start_pie end_pie r,
        In r (df_pie start_pie end_pie sel_accts df) -> Date r <> None).
Proof.
  unfold min_date, max_date, dt_date. intros Hlo Hhi.
  destruct (series_min (valid_dates df)) as [tmin|] eqn:Emin; [|discriminate].
  destruct (series_max (valid_dates df)) as [tmax|] eqn:Emax; [|discriminate].
  injection Hlo as <-. injection Hhi as <-.
  split; [|split].
  - destruct (valid_dates df) as [|t rest] eqn:E; [discriminate|].
    apply day_mono.
    pose proof (series_min_le _ _ t Emin (or_introl eq_refl)).
    pose proof (series_max_ge _ _ t Emax (or_introl eq_refl)). lia.
  - unfold df_pie. rewrite mask_in_reportb, loc_map.
    apply filter_ext_in. intros r Hr.
    unfold in_reportb, dated_and_selected, dt_date, isin.
    destruct (Date r) as [t|] eqn:Et; [|reflexivity].
    pose proof (valid_dates_In df r t Hr Et) as Hin.
    pose proof (day_mono _ _ (series_min_le _ _ t Emin Hin)) as H1.
    pose proof (day_mono _ _ (series_max_ge _ _ t Emax Hin)) as H2.
    apply Z.leb_le in H1, H2. now rewrite H1, H2.
  - intros start_pie end_pie r Hin. unfold df_pie in Hin.
    rewrite mask_in_reportb, loc_map in Hin. apply filter_In in Hin as [_ Hin].
    unfold in_reportb, dt_date in Hin. destruct (Date r); [discriminate|].
    discriminate Hin.
Qed.

Lemma default_range_shows_all_witness :
  jan2024 1 <= jan2024 3
  /\ df_pie (jan2024 1) (jan2024 3) ["Cash"; "Savings"]%string sample_ledger
     = filter (dated_and_selected ["Cash"; "Savings"]%string) sample_ledger
  /\ (forall start_pie end_pie r,
        In r (df_pie start_pie end_pie ["Cash"; "Savings"]%string sample_ledger) ->
        Date r <> None).
Proof.
  apply (default_range_shows_all ["Cash"; "Savings"]%string sample_ledger).
  - vm_compute. reflexivity.
  - vm_compute. reflexivity.
Defined.

(** ** Frames the script holds *)



(** Every step of the pass is a no-op on a frame the script holds: it is
    already sorted, already numbered, and already carries its running
    balances, so passing it again returns it unchanged. *)
Theorem held_frame_is_settled {A} `{AmountOps A} (df : frame A) :
  reachable df ->
  sort_values df = df
  /\ assign_SNo 0 df = df
  /\ with_cumsum accum_init df = df
  /\ recompute df = df.
Proof.
  intros Hr. destruct (reachable_recompute df Hr) as [df0 ->].
  assert (Hsort : sort_values (recompute df0) = recompute df0)
    by apply sort_values_id, recompute_canonical.
  assert (Hno : assign_SNo 0 (recompute df0) = recompute df0).
  { rewrite recompute_unfold. now rewrite assign_SNo_with_cumsum, assign_SNo_again. }
  assert (Hcum : with_cumsum accum_init (recompute df0) = recompute df0).
  { rewrite recompute_unfold. apply with_cumsum_again. }
  repeat split; try assumption.
  rewrite (recompute_unfold (recompute df0)). now rewrite Hsort, Hno, Hcum.
Qed.

Lemma held_frame_is_settled_witness :
  sort_values sample_ledger = sample_ledger
  /\ assign_SNo 0 sample_ledger = sample_ledger
  /\ with_cumsum accum_init sample_ledger = sample_ledger
  /\ recompute sample_ledger = sample_ledger.
Proof. apply held_frame_is_settled. exact sample_reachable. Defined.

(** ** Loading *)

(** The loader keeps every record of the file: the loaded rows are the
    records with their cells coerced (an unreadable amount counted as 0, an
    unreadable date kept as missing), in some order, and as many. *)
Theorem load_keeps_records {A} `{AmountOps A} (records : list (csv_row A)) :
  Permutation (map payload (load (Some records))) (map payload (map coerce records))
  /\ List.length (load (Some records)) = List.length records
  /\ Forall2 (fun c p => p = (csv_Date c, csv_Description c, csv_Account c,
                              match csv_Amount c with Some a => a | None => azero end))
             records (map payload (map coerce records)).
Proof.
  split; [|split].
  - unfold load. destruct (map coerce records) as [|r rest] eqn:E; [reflexivity|].
    rewrite recompute_payload. apply Permutation_map, sort_values_perm.
  - unfold load. destruct (map coerce records) as [|r rest] eqn:E.
    + apply (f_equal (@List.length _)) in E. now rewrite length_map in E.
    + rewrite recompute_length, <- E. apply length_map.
  - induction records as [|c rest IH]; simpl; constructor; [reflexivity | exact IH].
Qed.

(** The S.No column of the file (and a Balance column, if it has one) plays
    no part: two files whose records agree on Date, Description, Account and
    Amount load to the same frame, cell for cell. *)
Theorem load_ignores_serials {A} `{AmountOps A} (records records' : list (csv_row A)) :
  map (fun c => payload (coerce c)) records = map (fun c => payload (coerce c)) records' ->
  load (Some records) = load (Some records').
Proof.
  intros E0.
  assert (E : map payload (map coerce records) = map payload (map coerce records'))
    by (rewrite !map_map; exact E0).
  assert (El : List.length (map coerce records) = List.length (map coerce records')).
  { rewrite <- (length_map payload), E. apply length_map. }
  unfold load.
  destruct (map coerce records) as [|r rest] eqn:E1;
    destruct (map coerce records') as [|r' rest'] eqn:E2; try discriminate El;
    [reflexivity|].
  now apply recompute_congr.
Qed.

Lemma load_ignores_serials_witness :
  load (Some sample_file)
  = load (Some (map (fun c => mkCsv 0 (csv_Date c) (csv_Description c) (csv_Account c)
                                    (csv_Amount c)) sample_file)).
Proof.
  apply load_ignores_serials. reflexivity.
Defined.

(** ** Layout of the ledger *)

(** Every frame the script holds is laid out in blocks: between two rows of
    one account there are only rows of that account, and within an account
    the dates ascend with the rows that have no date at the end. *)
Theorem ledger_layout {A} `{AmountOps A} (df l1 l2 l3 : frame A) (x y : row A) :
  reachable df ->
  df = l1 ++ x :: l2 ++ y :: l3 ->
  Account x = Account y ->
  Forall (fun z => Account z = Account x) l2
  /\ date_leb (Date x) (Date y) = true
  /\ (Date x = None -> Date y = None).
Proof.
  intros Hr -> Eacc.
  assert (Hs : StronglySorted key_le (l1 ++ x :: l2 ++ y :: l3)).
  { apply canonical_strongly.
    destruct (reachable_recompute _ Hr) as [df0 ->]. apply recompute_canonical. }
  apply strongly_sorted_tail in Hs.
  apply StronglySorted_inv in Hs as [Hs Hx].
  assert (Hxy : key_le x y).
  { apply (proj1 (Forall_forall _ _) Hx). apply in_or_app. right. now left. }
  pose proof (key_le_same_account x y Hxy Eacc) as Hd.
  split; [|split; [exact Hd|]].
  - apply Forall_forall. intros z Hz.
    assert (Hxz : key_le x z).
    { apply (proj1 (Forall_forall _ _) Hx). apply in_or_app. now left. }
    apply in_split in Hz as [m1 [m2 ->]].
    rewrite <- app_assoc in Hs. cbn [app] in Hs.
    apply strongly_sorted_tail in Hs.
    apply StronglySorted_inv in Hs as [_ Hz].
    assert (Hzy : key_le z y).
    { apply (proj1 (Forall_forall _ _) Hz). apply in_or_app. right. now left. }
    exact (key_le_between x z y Hxz Hzy Eacc).
  - intros Hnone. rewrite Hnone in Hd. destruct (Date y); [discriminate | reflexivity].
Qed.

Lemma ledger_layout_witness :
  Forall (fun z => Account z = "Cash"%string)
         [mkRow 2 (pd_to_datetime (jan2024 2)) "Pay" "Cash"
                (PrimFloat.opp (float_of_Z 40)) (float_of_Z 60)]
  /\ date_leb (pd_to_datetime (jan2024 1)) None = true
  /\ (pd_to_datetime (jan2024 1) = None -> @None Z = None).
Proof.
  apply (ledger_layout sample_ledger []
           [mkRow 2 (pd_to_datetime (jan2024 2)) "Pay" "Cash"
                  (PrimFloat.opp (float_of_Z 40)) (float_of_Z 60)]
           [mkRow 4 (pd_to_datetime (jan2024 3)) "Moved" "Savings"
                  (PrimFloat.opp (float_of_Z 7)) (PrimFloat.opp (float_of_Z 7))]
           (mkRow 1 (pd_to_datetime (jan2024 1)) "Open" "Cash"
                  (float_of_Z 100) (float_of_Z 100))
           (mkRow 3 None "undated" "Cash" (float_of_Z 0) (float_of_Z 60))).
  - exact sample_reachable.
  - vm_compute. reflexivity.
  - reflexivity.
Defined.

(** ** The exported Credit and Debit columns *)

(** For every float64 amount at most one of the two exported cells is
    non-zero: a positive amount goes to Credit as it is; a negative one goes
    to Debit as its magnitude, a positive number that is also what the debit
    total of the pie adds up; anything else gives 0 in both. *)
Theorem export_split (x : float) :
  (credit_of x = PrimFloat.zero \/ debit_of x = PrimFloat.zero)
  /\ (altb azero x = true -> credit_of x = x /\ debit_of x = PrimFloat.zero)
  /\ (altb x azero = true ->
      credit_of x = PrimFloat.zero /\ debit_of x = aabs x
      /\ altb azero (debit_of x) = true)
  /\ (altb azero x = false -> altb x azero = false ->
      credit_of x = PrimFloat.zero /\ debit_of x = PrimFloat.zero).
Proof.
  assert (Hexcl : altb azero x = true -> altb x azero = false).
  { cbn [altb azero float64]. rewrite !ltb_spec, Prim2SF_zero.
    destruct (Prim2SF x) as [s|s| |s m e]; try destruct s; cbn; congruence. }
  assert (Hneg : altb x azero = true ->
                 aneg x = aabs x /\ altb azero (aneg x) = true).
  { cbn [altb azero aneg aabs float64]. intros Hlt. split.
    - apply Prim2SF_inj. rewrite opp_spec, abs_spec.
      rewrite ltb_spec, Prim2SF_zero in Hlt.
      destruct (Prim2SF x) as [s|s| |s m e]; try destruct s; cbn in *; congruence.
    - rewrite ltb_spec, opp_spec, Prim2SF_zero.
      rewrite ltb_spec, Prim2SF_zero in Hlt.
      destruct (Prim2SF x) as [s|s| |s m e]; try destruct s; cbn in *; congruence. }
  unfold credit_of, debit_of.
  destruct (altb azero x) eqn:Ec, (altb x azero) eqn:Ed.
  - specialize (Hexcl eq_refl). discriminate.
  - repeat split; try discriminate; auto.
  - destruct (Hneg eq_refl) as [Habs Hpos].
    repeat split; try discriminate; auto.
  - repeat split; try discriminate; auto.
Qed.
